(** * The media element of shaka-player-embedded: ready state, pipeline status
      and the events they schedule

    A shallow embedding of [src/js/mse/video_element.cc] (class
    [HTMLVideoElement]) with the enumeration of [src/js/dom/exception_code.h].

    The element is a record of the member variables the methods read and
    write.  The two things a method does besides updating its members are kept
    as traces in the surrounding [World]: the events handed to
    [ScheduleEvent], in the order of the calls, and the calls made on the
    collaborators (the media source, its controller and its pipeline manager).
    A method is a function from worlds to outcomes; an outcome is either a
    return value with the world it leaves, or the abort of a failed [DCHECK].

    The cue-checking thread ([ThreadMain], [CheckForCueChange]) reads the
    pipeline's clock and the text tracks only, and is left out. *)

From Stdlib Require Import Bool List String ZArith Lia.
From Stdlib Require Import PrimFloat.
Import ListNotations.
Local Open Scope string_scope.
Local Open Scope list_scope.

Set Implicit Arguments.

(* ------------------------------------------------------------------ *)
(** ** Enumerations *)

(** [enum ExceptionCode] of [src/js/dom/exception_code.h]. *)
Inductive ExceptionCode : Set :=
| IndexSizeError
| HierarchyRequestError
| WrongDocumentError
| InvalidCharacterError
| NoModificationAllowedError
| NotFoundError
| NotSupportedError
| InUseAttributeError
| InvalidStateError
| SyntaxError
| InvalidModificationError
| NamespaceError
| InvalidAccessError
| TypeMismatchError
| SecurityError
| NetworkError
| AbortError
| URLMismatchError
| QuotaExceededError
| TimeoutError
| InvalidNodeTypeError
| DataCloneError
| EncodingError
| NotReadableError
| UnknownError
| ConstraintError
| DataError
| TransactionInactiveError
| ReadOnlyError
| VersionError
| OperationError
| NotAllowedError
| MaxExceptionCode.

(** Modelled from the spec: [media::MediaReadyState] is declared in a header
    that is not among the sources.  The five names are the ones the element
    compares against and exports as constants; their order is the one of the
    data model, NoData < Metadata < CurrentData < FutureData < EnoughData. *)
Inductive MediaReadyState : Set :=
| HAVE_NOTHING
| HAVE_METADATA
| HAVE_CURRENT_DATA
| HAVE_FUTURE_DATA
| HAVE_ENOUGH_DATA.

Definition ready_state_value (r : MediaReadyState) : Z :=
  match r with
  | HAVE_NOTHING => 0
  | HAVE_METADATA => 1
  | HAVE_CURRENT_DATA => 2
  | HAVE_FUTURE_DATA => 3
  | HAVE_ENOUGH_DATA => 4
  end.

(** The comparisons of the C++ enumeration: [a < b], [a >= b], [a == b]. *)
Definition rs_lt (a b : MediaReadyState) : bool :=
  (ready_state_value a <? ready_state_value b)%Z.
Definition rs_ge (a b : MediaReadyState) : bool :=
  (ready_state_value b <=? ready_state_value a)%Z.
Definition rs_eq (a b : MediaReadyState) : bool :=
  (ready_state_value a =? ready_state_value b)%Z.

(** [media::PipelineStatus]: the eight cases of the [switch] in
    [OnPipelineStatusChanged]. *)
Module PipelineStatus.
Inductive t : Set :=
| Initializing
| Playing
| Paused
| Stalled
| SeekingPlay
| SeekingPause
| Ended
| Errored.

Definition eqb (a b : t) : bool :=
  match a, b with
  | Initializing, Initializing
  | Playing, Playing
  | Paused, Paused
  | Stalled, Stalled
  | SeekingPlay, SeekingPlay
  | SeekingPause, SeekingPause
  | Ended, Ended
  | Errored, Errored => true
  | _, _ => false
  end.
End PipelineStatus.

(** [EventType]: the event names the element schedules or listens for. *)
Module EventType.
Inductive t : Set :=
| LoadedMetaData
| LoadedData
| CanPlay
| Waiting
| ReadyStateChange
| Emptied
| Play
| Playing
| Pause
| Seeking
| Seeked
| Ended
| Error
| Encrypted
| WaitingForKey.
End EventType.

(** The codes of [MediaError]; the class is declared outside the sources and
    the element only ever builds [MEDIA_ERR_DECODE]. *)
Inductive MediaErrorCode : Set :=
| MEDIA_ERR_ABORTED
| MEDIA_ERR_NETWORK
| MEDIA_ERR_DECODE
| MEDIA_ERR_SRC_NOT_SUPPORTED.

(** [new MediaError(code, message)]. *)
Record MediaError : Set := mkMediaError {
  code : MediaErrorCode;
  message : string
}.

(** [JsError::DOMException(code, message)]. *)
Record JsError : Set := DOMException {
  exception_code : ExceptionCode;
  exception_message : string
}.

(** [ExceptionOr<T>]: a thrown exception or a returned value. *)
Inductive ExceptionOr (T : Type) : Type :=
| Threw (e : JsError)
| Returned (v : T).
Arguments Threw {T} e.
Arguments Returned {T} v.

(** [Promise::Resolved()] and [Promise::Rejected(error)]. *)
Inductive Promise : Set :=
| Resolved
| Rejected (e : JsError).

(* ------------------------------------------------------------------ *)
(** ** Collaborators *)

(** The types and functions of the collaborating classes that the element
    names but that are declared outside the sources. *)
Class Collaborators : Type := {
  (** [MediaSource] objects, and their [url] member. *)
  MediaSource : Type;
  MediaSource_url : MediaSource -> string;
  (** [eme::MediaKeys], [eme::Implementation] and [MediaKeys::GetCdm]. *)
  MediaKeys : Type;
  Cdm : Type;
  GetCdm : MediaKeys -> Cdm;
  (** [media::SourceType], [media::Status] and [GetErrorString]. *)
  SourceType : Type;
  Status : Type;
  GetErrorString : Status -> string;
  (** [TextTrackKind]. *)
  TextTrackKind : Type
}.

Section VideoElement.

Context {collab : Collaborators}.

(** Whether [DCHECK] is compiled in (a debug build) or expands to nothing. *)
Variable DCHECK_IS_ON : bool.

(** [new TextTrack(kind, label, language)]. *)
Record TextTrack : Type := mkTextTrack {
  track_kind : TextTrackKind;
  track_label : string;
  track_language : string
}.

(** A call on a collaborator, with the media source it goes through. *)
Inductive Call : Type :=
| CloseMediaSource (ms : MediaSource)
| OpenMediaSource (ms : MediaSource)
| Controller_SetVolume (ms : MediaSource) (volume : float)
| Controller_SetCdm (ms : MediaSource) (cdm : option Cdm)
| PipelineManager_Play (ms : MediaSource)
| PipelineManager_Pause (ms : MediaSource)
| PipelineManager_SetCurrentTime (ms : MediaSource) (time : float)
| PipelineManager_SetPlaybackRate (ms : MediaSource) (rate : float).

(* ------------------------------------------------------------------ *)
(** ** The element and its world *)

(** The member variables of [HTMLVideoElement]. *)
Record HTMLVideoElement : Type := mkElement {
  ready_state : MediaReadyState;
  autoplay : bool;
  loop : bool;
  media_keys : option MediaKeys;
  text_tracks : list TextTrack;
  error : option MediaError;
  media_source_ : option MediaSource;
  pipeline_status_ : PipelineStatus.t;
  volume_ : float;
  will_play_ : bool;
  is_muted_ : bool
}.

Definition set_ready_state (v : MediaReadyState) (e : HTMLVideoElement) :=
  mkElement v (autoplay e) (loop e) (media_keys e) (text_tracks e) (error e)
    (media_source_ e) (pipeline_status_ e) (volume_ e) (will_play_ e)
    (is_muted_ e).
Definition set_autoplay (v : bool) (e : HTMLVideoElement) :=
  mkElement (ready_state e) v (loop e) (media_keys e) (text_tracks e) (error e)
    (media_source_ e) (pipeline_status_ e) (volume_ e) (will_play_ e)
    (is_muted_ e).
Definition set_loop (v : bool) (e : HTMLVideoElement) :=
  mkElement (ready_state e) (autoplay e) v (media_keys e) (text_tracks e)
    (error e) (media_source_ e) (pipeline_status_ e) (volume_ e) (will_play_ e)
    (is_muted_ e).
Definition set_media_keys (v : option MediaKeys) (e : HTMLVideoElement) :=
  mkElement (ready_state e) (autoplay e) (loop e) v (text_tracks e) (error e)
    (media_source_ e) (pipeline_status_ e) (volume_ e) (will_play_ e)
    (is_muted_ e).
Definition set_text_tracks (v : list TextTrack) (e : HTMLVideoElement) :=
  mkElement (ready_state e) (autoplay e) (loop e) (media_keys e) v (error e)
    (media_source_ e) (pipeline_status_ e) (volume_ e) (will_play_ e)
    (is_muted_ e).
Definition set_error (v : option MediaError) (e : HTMLVideoElement) :=
  mkElement (ready_state e) (autoplay e) (loop e) (media_keys e)
    (text_tracks e) v (media_source_ e) (pipeline_status_ e) (volume_ e)
    (will_play_ e) (is_muted_ e).
Definition set_media_source_ (v : option MediaSource) (e : HTMLVideoElement) :=
  mkElement (ready_state e) (autoplay e) (loop e) (media_keys e)
    (text_tracks e) (error e) v (pipeline_status_ e) (volume_ e) (will_play_ e)
    (is_muted_ e).
Definition set_pipeline_status_ (v : PipelineStatus.t) (e : HTMLVideoElement) :=
  mkElement (ready_state e) (autoplay e) (loop e) (media_keys e)
    (text_tracks e) (error e) (media_source_ e) v (volume_ e) (will_play_ e)
    (is_muted_ e).
Definition set_volume_ (v : float) (e : HTMLVideoElement) :=
  mkElement (ready_state e) (autoplay e) (loop e) (media_keys e)
    (text_tracks e) (error e) (media_source_ e) (pipeline_status_ e) v
    (will_play_ e) (is_muted_ e).
Definition set_will_play_ (v : bool) (e : HTMLVideoElement) :=
  mkElement (ready_state e) (autoplay e) (loop e) (media_keys e)
    (text_tracks e) (error e) (media_source_ e) (pipeline_status_ e)
    (volume_ e) v (is_muted_ e).
Definition set_is_muted_ (v : bool) (e : HTMLVideoElement) :=
  mkElement (ready_state e) (autoplay e) (loop e) (media_keys e)
    (text_tracks e) (error e) (media_source_ e) (pipeline_status_ e)
    (volume_ e) (will_play_ e) v.

(** The element together with what it has sent out: the events given to
    [ScheduleEvent] (oldest first) and the calls made on the collaborators
    (oldest first). *)
Record World : Type := mkWorld {
  this : HTMLVideoElement;
  scheduled : list EventType.t;
  calls : list Call
}.

(* ------------------------------------------------------------------ *)
(** ** Methods as world transformers *)

Inductive Outcome (A : Type) : Type :=
| Done (a : A) (w : World)
| Aborted.
Arguments Done {A} a w.
Arguments Aborted {A}.

Definition M (A : Type) : Type := World -> Outcome A.

Definition ret {A} (a : A) : M A := fun w => Done a w.

Definition bind {A B} (m : M A) (k : A -> M B) : M B :=
  fun w =>
    match m w with
    | Done a w' => k a w'
    | Aborted => Aborted
    end.

Notation "x <- m ;; k" := (bind m (fun x => k))
  (at level 61, m at next level, right associativity).
Notation "m ;; k" := (bind m (fun _ => k))
  (at level 61, right associativity).

(** Read the members. *)
Definition self : M HTMLVideoElement := fun w => Done (this w) w.

(** Write a member. *)
Definition assign (f : HTMLVideoElement -> HTMLVideoElement) : M unit :=
  fun w => Done tt (mkWorld (f (this w)) (scheduled w) (calls w)).

(** [ScheduleEvent<events::Event>(type)]. *)
Definition ScheduleEvent (type : EventType.t) : M unit :=
  fun w => Done tt (mkWorld (this w) (scheduled w ++ [type]) (calls w)).

(** A call on a collaborator. *)
Definition call (c : Call) : M unit :=
  fun w => Done tt (mkWorld (this w) (scheduled w) (calls w ++ [c])).

(** [DCHECK(cond)]: aborts in a debug build when [cond] is false. *)
Definition DCHECK (cond : bool) : M unit :=
  fun w => if DCHECK_IS_ON && negb cond then Aborted else Done tt w.

(** [if (cond) stmt;] *)
Definition when (cond : bool) (stmt : M unit) : M unit :=
  if cond then stmt else ret tt.

Definition is_null {A} (p : option A) : bool :=
  match p with
  | Some _ => false
  | None => true
  end.

(** [std::string::empty]. *)
Definition empty (s : string) : bool :=
  match s with
  | EmptyString => true
  | String _ _ => false
  end.

(** The constructor's member initialisers. *)
Definition HTMLVideoElement_new : World :=
  mkWorld
    (mkElement HAVE_NOTHING false false None [] None None
       PipelineStatus.Initializing 1%float false false)
    [] [].

Definition OnReadyStateChanged (new_ready_state : MediaReadyState) : M unit :=
  e <- self ;;
  DCHECK (match media_source_ e with
          | Some _ => negb (rs_eq new_ready_state HAVE_NOTHING)
          | None => rs_eq new_ready_state HAVE_NOTHING
          end) ;;
  if rs_eq (ready_state e) new_ready_state then ret tt
  else
    when (rs_lt (ready_state e) HAVE_METADATA &&
          rs_ge new_ready_state HAVE_METADATA)
      (ScheduleEvent EventType.LoadedMetaData) ;;
    when (rs_lt (ready_state e) HAVE_CURRENT_DATA &&
          rs_ge new_ready_state HAVE_CURRENT_DATA)
      (ScheduleEvent EventType.LoadedData) ;;
    when (rs_lt (ready_state e) HAVE_ENOUGH_DATA &&
          rs_ge new_ready_state HAVE_ENOUGH_DATA)
      (ScheduleEvent EventType.CanPlay) ;;
    when (rs_ge (ready_state e) HAVE_FUTURE_DATA &&
          rs_lt new_ready_state HAVE_FUTURE_DATA &&
          negb (rs_eq new_ready_state HAVE_NOTHING))
      (ScheduleEvent EventType.Waiting) ;;
    ScheduleEvent EventType.ReadyStateChange ;;
    assign (set_ready_state new_ready_state).

Definition OnPipelineStatusChanged (status : PipelineStatus.t) : M unit :=
  e <- self ;;
  let prev := pipeline_status_ e in
  if PipelineStatus.eqb status prev then
    when (PipelineStatus.eqb status PipelineStatus.SeekingPlay ||
          PipelineStatus.eqb status PipelineStatus.SeekingPause)
      (ScheduleEvent EventType.Seeking)
  else
    match status with
    | PipelineStatus.Initializing => ScheduleEvent EventType.Emptied
    | PipelineStatus.Playing =>
        (if PipelineStatus.eqb prev PipelineStatus.Paused then
           ScheduleEvent EventType.Play
         else if PipelineStatus.eqb prev PipelineStatus.SeekingPlay then
           ScheduleEvent EventType.Seeked
         else
           DCHECK (PipelineStatus.eqb prev PipelineStatus.Stalled ||
                   PipelineStatus.eqb prev PipelineStatus.Initializing)) ;;
        ScheduleEvent EventType.Playing
    | PipelineStatus.Paused =>
        if PipelineStatus.eqb prev PipelineStatus.Playing ||
           PipelineStatus.eqb prev PipelineStatus.Stalled then
          ScheduleEvent EventType.Pause
        else if PipelineStatus.eqb prev PipelineStatus.SeekingPause then
          ScheduleEvent EventType.Seeked
        else
          DCHECK (PipelineStatus.eqb prev PipelineStatus.Initializing)
    | PipelineStatus.Stalled => ret tt
    | PipelineStatus.SeekingPlay
    | PipelineStatus.SeekingPause => ScheduleEvent EventType.Seeking
    | PipelineStatus.Ended =>
        (if PipelineStatus.eqb prev PipelineStatus.Playing then
           ScheduleEvent EventType.Pause
         else
           when (PipelineStatus.eqb prev PipelineStatus.SeekingPlay ||
                 PipelineStatus.eqb prev PipelineStatus.SeekingPause)
             (ScheduleEvent EventType.Seeked)) ;;
        ScheduleEvent EventType.Ended
    | PipelineStatus.Errored =>
        ScheduleEvent EventType.Error ;;
        e' <- self ;;
        when (is_null (error e'))
          (assign (set_error
                     (Some (mkMediaError MEDIA_ERR_DECODE
                                         "Unknown media error"))))
    end ;;
    assign (set_pipeline_status_ status).

Definition OnMediaError (source : SourceType) (status : Status) : M unit :=
  ScheduleEvent EventType.Error ;;
  e <- self ;;
  when (is_null (error e))
    (assign (set_error
               (Some (mkMediaError MEDIA_ERR_DECODE (GetErrorString status))))).

Definition GetMediaSource : M (option MediaSource) :=
  e <- self ;; ret (media_source_ e).

Definition SetMediaKeys (keys : option MediaKeys) : M Promise :=
  e <- self ;;
  if is_null keys && is_null (media_source_ e) then ret Resolved
  else
    match media_source_ e with
    | None =>
        ret (Rejected
               (DOMException InvalidStateError
                  "Cannot set MediaKeys until after setting source"))
    | Some ms =>
        let cdm := match keys with
                   | Some k => Some (GetCdm k)
                   | None => None
                   end in
        call (Controller_SetCdm ms cdm) ;;
        assign (set_media_keys keys) ;;
        ret Resolved
    end.

Definition Load : M unit :=
  assign (set_error None) ;;
  e <- self ;;
  match media_source_ e with
  | Some ms =>
      call (CloseMediaSource ms) ;;
      assign (set_media_source_ None) ;;
      OnReadyStateChanged HAVE_NOTHING ;;
      OnPipelineStatusChanged PipelineStatus.Initializing ;;
      assign (set_will_play_ false)
  | None => ret tt
  end.

(** [Source()]: the url of the attached media source, or the empty string. *)
Definition Source : M string :=
  e <- self ;;
  ret (match media_source_ e with
       | Some ms => MediaSource_url ms
       | None => EmptyString
       end).

(** [SetSource(src)]; [FindMediaSource] is the static lookup
    [MediaSource::FindMediaSource] as it answers at the time of the call. *)
Definition SetSource (FindMediaSource : string -> option MediaSource)
    (src : string) : M (ExceptionOr unit) :=
  Load ;;
  e <- self ;;
  DCHECK (is_null (media_source_ e)) ;;
  if empty src then ret (Returned tt)
  else
    assign (set_media_source_ (FindMediaSource src)) ;;
    e <- self ;;
    match media_source_ e with
    | Some ms =>
        call (OpenMediaSource ms) ;;
        call (Controller_SetVolume ms
                (if is_muted_ e then 0%float else volume_ e)) ;;
        when (autoplay e || will_play_ e) (call (PipelineManager_Play ms)) ;;
        ret (Returned tt)
    | None =>
        ret (Threw (DOMException NotSupportedError
                      "Unknown MediaSource URL given."))
    end.

Definition SetCurrentTime (time : float) : M unit :=
  e <- self ;;
  match media_source_ e with
  | Some ms => call (PipelineManager_SetCurrentTime ms time)
  | None => ret tt
  end.

Definition SetPlaybackRate (rate : float) : M unit :=
  e <- self ;;
  match media_source_ e with
  | Some ms => call (PipelineManager_SetPlaybackRate ms rate)
  | None => ret tt
  end.

Definition Muted : M bool :=
  e <- self ;; ret (is_muted_ e).

Definition SetMuted (muted : bool) : M unit :=
  assign (set_is_muted_ muted) ;;
  e <- self ;;
  match media_source_ e with
  | Some ms =>
      call (Controller_SetVolume ms (if muted then 0%float else volume_ e))
  | None => ret tt
  end.

Definition Volume : M float :=
  e <- self ;; ret (volume_ e).

Definition SetVolume (volume : float) : M unit :=
  assign (set_volume_ volume) ;;
  e <- self ;;
  match media_source_ e with
  | Some ms =>
      call (Controller_SetVolume ms
              (if is_muted_ e then 0%float else volume_ e))
  | None => ret tt
  end.

Definition Paused : M bool :=
  e <- self ;;
  ret (PipelineStatus.eqb (pipeline_status_ e) PipelineStatus.Paused ||
       PipelineStatus.eqb (pipeline_status_ e) PipelineStatus.SeekingPause ||
       PipelineStatus.eqb (pipeline_status_ e) PipelineStatus.Ended).

Definition Seeking : M bool :=
  e <- self ;;
  ret (PipelineStatus.eqb (pipeline_status_ e) PipelineStatus.SeekingPlay ||
       PipelineStatus.eqb (pipeline_status_ e) PipelineStatus.SeekingPause).

Definition Ended : M bool :=
  e <- self ;;
  ret (PipelineStatus.eqb (pipeline_status_ e) PipelineStatus.Ended).

Definition Play : M unit :=
  e <- self ;;
  match media_source_ e with
  | Some ms => call (PipelineManager_Play ms)
  | None => assign (set_will_play_ true)
  end.

Definition Pause : M unit :=
  e <- self ;;
  match media_source_ e with
  | Some ms => call (PipelineManager_Pause ms)
  | None => assign (set_will_play_ false)
  end.

Definition value_or (o : option string) (d : string) : string :=
  match o with
  | Some s => s
  | None => d
  end.

Definition AddTextTrack (kind : TextTrackKind) (label language : option string)
    : M TextTrack :=
  let track := mkTextTrack kind (value_or label EmptyString)
                 (value_or language EmptyString) in
  e <- self ;;
  assign (set_text_tracks (text_tracks e ++ [track])) ;;
  ret track.

End VideoElement.

Arguments Done {collab A} a w.
Arguments Aborted {collab A}.

(* ------------------------------------------------------------------ *)
(** ** Sequences of public operations *)

Section Operations.

Context {collab : Collaborators}.
Variable DCHECK_IS_ON : bool.

(** The public operations that change the element: the callbacks of the
    pipeline, the methods and property setters exported to script, and the
    setters of the native interface.  [Call_SetSource] carries the answer of
    the source registry at the time of the call. *)
Inductive Op : Type :=
| Call_OnReadyStateChanged (new_ready_state : MediaReadyState)
| Call_OnPipelineStatusChanged (status : PipelineStatus.t)
| Call_OnMediaError (source : SourceType) (status : Status)
| Call_SetMediaKeys (keys : option MediaKeys)
| Call_Load
| Call_SetSource (FindMediaSource : string -> option MediaSource)
                 (src : string)
| Call_SetCurrentTime (time : float)
| Call_SetPlaybackRate (rate : float)
| Call_SetMuted (muted : bool)
| Call_SetVolume (volume : float)
| Call_Play
| Call_Pause
| Call_AddTextTrack (kind : TextTrackKind) (label language : option string)
| Write_autoplay (value : bool)
| Write_loop (value : bool).

(** Run a method and drop what it returns. *)
Definition discard {A} (m : M A) : M unit :=
  bind m (fun _ => ret tt).

Definition step (op : Op) : M unit :=
  match op with
  | Call_OnReadyStateChanged r => OnReadyStateChanged DCHECK_IS_ON r
  | Call_OnPipelineStatusChanged s => OnPipelineStatusChanged DCHECK_IS_ON s
  | Call_OnMediaError source status => OnMediaError source status
  | Call_SetMediaKeys keys => discard (SetMediaKeys keys)
  | Call_Load => Load DCHECK_IS_ON
  | Call_SetSource find src => discard (SetSource DCHECK_IS_ON find src)
  | Call_SetCurrentTime t => SetCurrentTime t
  | Call_SetPlaybackRate r => SetPlaybackRate r
  | Call_SetMuted m => SetMuted m
  | Call_SetVolume v => SetVolume v
  | Call_Play => Play
  | Call_Pause => Pause
  | Call_AddTextTrack kind label language =>
      discard (AddTextTrack kind label language)
  | Write_autoplay v => assign (set_autoplay v)
  | Write_loop v => assign (set_loop v)
  end.

Fixpoint run (ops : list Op) : M unit :=
  match ops with
  | [] => ret tt
  | op :: rest => bind (step op) (fun _ => run rest)
  end.

(** The operations whose body calls [Load()]: [Load] itself and [SetSource],
    whose first statement is the call. *)
Definition performs_Load (op : Op) : bool :=
  match op with
  | Call_Load | Call_SetSource _ _ => true
  | _ => false
  end.

End Operations.

(* ------------------------------------------------------------------ *)
(** ** Vocabulary of the statements *)

Section Vocabulary.

Context {collab : Collaborators}.

(** The world after scheduling [evs], after updating the members with [f],
    and after sending the calls [cs]. *)
Definition emits (evs : list EventType.t) (w : World) : World :=
  mkWorld (this w) (scheduled w ++ evs) (calls w).
Definition updates (f : HTMLVideoElement -> HTMLVideoElement) (w : World)
    : World :=
  mkWorld (f (this w)) (scheduled w) (calls w).
Definition sends (cs : list Call) (w : World) : World :=
  mkWorld (this w) (scheduled w) (calls w ++ cs).

(** The precondition of [OnReadyStateChanged]: a media source is attached
    exactly when the reported state is not [HAVE_NOTHING]. *)
Definition attachment_ok (e : HTMLVideoElement) (r : MediaReadyState) : Prop :=
  match media_source_ e with
  | Some _ => r <> HAVE_NOTHING
  | None => r = HAVE_NOTHING
  end.

(** An element without media source has no data. *)
Definition sourceless_has_nothing (e : HTMLVideoElement) : Prop :=
  media_source_ e = None -> ready_state e = HAVE_NOTHING.

(** [old < t <= new] and [new < t <= old] on the values of the enumeration. *)
Definition crosses_up (old new t : MediaReadyState) : bool :=
  (ready_state_value old <? ready_state_value t)%Z &&
  (ready_state_value t <=? ready_state_value new)%Z.
Definition crosses_down (old new t : MediaReadyState) : bool :=
  (ready_state_value new <? ready_state_value t)%Z &&
  (ready_state_value t <=? ready_state_value old)%Z.

(** The events of a ready-state change as the specification lists them, the
    thresholds taken in the order Metadata, CurrentData, FutureData,
    EnoughData, with [ReadyStateChange] at the end. *)
Definition spec_ready_state_events (old new : MediaReadyState)
    : list EventType.t :=
  (if crosses_up old new HAVE_METADATA
   then [EventType.LoadedMetaData] else []) ++
  (if crosses_up old new HAVE_CURRENT_DATA
   then [EventType.LoadedData] else []) ++
  (if crosses_down old new HAVE_FUTURE_DATA &&
      negb (ready_state_value new =? 0)%Z
   then [EventType.Waiting] else []) ++
  (if crosses_up old new HAVE_ENOUGH_DATA
   then [EventType.CanPlay] else []) ++
  [EventType.ReadyStateChange].

(** Record [err] unless an error is already recorded. *)
Definition record_error (err : MediaError) (e : HTMLVideoElement)
    : HTMLVideoElement :=
  match error e with
  | Some _ => e
  | None => set_error (Some err) e
  end.

Definition generic_decode_error : MediaError :=
  mkMediaError MEDIA_ERR_DECODE "Unknown media error".

(** The two calls that report an error. *)
Inductive ErrorReport : Type :=
| Report_OnMediaError (source : SourceType) (status : Status)
| Report_Errored.

Definition report_op (r : ErrorReport) : Op :=
  match r with
  | Report_OnMediaError source status => Call_OnMediaError source status
  | Report_Errored => Call_OnPipelineStatusChanged PipelineStatus.Errored
  end.

Definition reported_error (r : ErrorReport) : MediaError :=
  match r with
  | Report_OnMediaError _ status =>
      mkMediaError MEDIA_ERR_DECODE (GetErrorString status)
  | Report_Errored => generic_decode_error
  end.

(** The members after [Load()] on an element with a media source. *)
Definition unloaded (e : HTMLVideoElement) : HTMLVideoElement :=
  set_will_play_ false
    (set_pipeline_status_ PipelineStatus.Initializing
       (set_ready_state HAVE_NOTHING
          (set_media_source_ None (set_error None e)))).

(** The events [Load()] schedules on an element with a media source. *)
Definition unload_events (e : HTMLVideoElement) : list EventType.t :=
  (if rs_eq (ready_state e) HAVE_NOTHING
   then [] else [EventType.ReadyStateChange]) ++
  (if PipelineStatus.eqb (pipeline_status_ e) PipelineStatus.Initializing
   then [] else [EventType.Emptied]).

(** The world [Load()] leaves. *)
Definition Load_world (w : World) : World :=
  match media_source_ (this w) with
  | Some ms =>
      mkWorld (unloaded (this w))
              (scheduled w ++ unload_events (this w))
              (calls w ++ [CloseMediaSource ms])
  | None => updates (set_error None) w
  end.

(** The volume the element pushes to the controller. *)
Definition pushed_volume (e : HTMLVideoElement) : float :=
  if is_muted_ e then 0%float else volume_ e.

(** The calls [SetSource] makes on the media source it attaches. *)
Definition attach_calls (ms : MediaSource) (e : HTMLVideoElement)
    : list Call :=
  [OpenMediaSource ms; Controller_SetVolume ms (pushed_volume e)] ++
  (if autoplay e || will_play_ e then [PipelineManager_Play ms] else []).

(** How often the pipeline was told to play. *)
Fixpoint count_play (cs : list Call) : nat :=
  match cs with
  | [] => 0
  | PipelineManager_Play _ :: rest => S (count_play rest)
  | _ :: rest => count_play rest
  end.

(** [0.0 <= v <= 1.0] on doubles. *)
Definition volume_in_range (v : float) : bool :=
  PrimFloat.leb 0%float v && PrimFloat.leb v 1%float.

Definition is_SetVolume_out_of_range (op : Op) : bool :=
  match op with
  | Call_SetVolume v => negb (volume_in_range v)
  | _ => false
  end.

(** The two seeking statuses. *)
Definition is_seeking (s : PipelineStatus.t) : bool :=
  PipelineStatus.eqb s PipelineStatus.SeekingPlay ||
  PipelineStatus.eqb s PipelineStatus.SeekingPause.

(** The error a sequence of reports writes into an empty error record, the
    pipeline status being [current] at its start: that of the first report
    that is not an Errored status reported again. *)
Fixpoint first_error_written
    (current : PipelineStatus.t) (reports : list ErrorReport)
    : option MediaError :=
  match reports with
  | [] => None
  | Report_Errored :: rest =>
      if PipelineStatus.eqb current PipelineStatus.Errored
      then first_error_written current rest
      else Some generic_decode_error
  | r :: _ => Some (reported_error r)
  end.

(** The precondition an operation asserts on the element it is called on:
    that of [OnReadyStateChanged], and none for the others. *)
Definition meets_precondition (op : Op) (e : HTMLVideoElement) : Prop :=
  match op with
  | Call_OnReadyStateChanged r => attachment_ok e r
  | _ => True
  end.

(** Every operation of [ops], run from [w], is called on an element that
    meets its precondition. *)
Fixpoint preconditions_met (dc : bool) (ops : list Op) (w : World) : Prop :=
  match ops with
  | [] => True
  | op :: rest =>
      meets_precondition op (this w) /\
      match step dc op w with
      | Done _ w1 => preconditions_met dc rest w1
      | Aborted => True
      end
  end.

End Vocabulary.

(** A world of collaborators to evaluate the methods on: a media source is
    its url, a status is a number. *)
Definition sample_collaborators : Collaborators :=
  {| MediaSource := string;
     MediaSource_url := fun s => s;
     MediaKeys := unit;
     Cdm := unit;
     GetCdm := fun k => k;
     SourceType := unit;
     Status := Z;
     GetErrorString := fun _ => "Decoder failure";
     TextTrackKind := unit |}.

(** A registry with the single media source ["blob:1"]. *)
Definition sample_registry (src : string)
    : option (@MediaSource sample_collaborators) :=
  if String.eqb src "blob:1" then Some src else None.

(** The world a fresh element is in after [ops], in a debug build. *)
Definition world_after (ops : list (@Op sample_collaborators))
    : @World sample_collaborators :=
  match run true ops HTMLVideoElement_new with
  | Done _ w => w
  | Aborted => HTMLVideoElement_new
  end.

(** A fresh element put on ["blob:1"]. *)
Definition attached_world : @World sample_collaborators :=
  world_after [Call_SetSource sample_registry "blob:1"].

(** A fresh element whose pipeline has reported [s]. *)
Definition world_in (s : PipelineStatus.t) : @World sample_collaborators :=
  world_after [Call_OnPipelineStatusChanged s].

(** A fresh element after a media error. *)
Definition failed_world : @World sample_collaborators :=
  world_after [Call_OnMediaError (collab := sample_collaborators) tt 7%Z].

(** A fresh element put on ["blob:1"] whose pipeline has reported Errored. *)
Definition errored_world : @World sample_collaborators :=
  world_after [Call_SetSource sample_registry "blob:1";
               Call_OnPipelineStatusChanged PipelineStatus.Errored].

(* ------------------------------------------------------------------ *)
(** ** The getters that read the collaborators *)

(** [media::BufferedRange]: a start and an end time. *)
Record BufferedRange : Set := mkBufferedRange {
  range_start : float;
  range_end : float
}.

(** What the pipeline manager, the controller and the media source answer
    when the element asks, at the time it asks. *)
Class Readings {collab : Collaborators} : Type := {
  PipelineManager_GetCurrentTime : MediaSource -> float;
  PipelineManager_GetDuration : MediaSource -> float;
  PipelineManager_GetPlaybackRate : MediaSource -> float;
  Controller_GetBufferedRanges :
    MediaSource -> SourceType -> list BufferedRange;
  MediaSource_GetDuration : MediaSource -> float;
  (** [media::SourceType::Unknown]. *)
  SourceType_Unknown : SourceType
}.

Section Getters.

Context {collab : Collaborators} {readings : Readings}.

Notation "x <- m ;; k" := (bind m (fun x => k))
  (at level 61, m at next level, right associativity).

(** [new TimeRanges(ranges)]. *)
Definition TimeRanges : Set := list BufferedRange.

Definition Buffered : M TimeRanges :=
  e <- self ;;
  match media_source_ e with
  | None => ret []
  | Some ms => ret (Controller_GetBufferedRanges ms SourceType_Unknown)
  end.

Definition Seekable : M TimeRanges :=
  e <- self ;;
  let ranges :=
    match media_source_ e with
    | Some ms =>
        if negb (PrimFloat.is_nan (MediaSource_GetDuration ms))
        then [mkBufferedRange 0%float (MediaSource_GetDuration ms)]
        else []
    | None => []
    end in
  ret ranges.

Definition CurrentTime : M float :=
  e <- self ;;
  match media_source_ e with
  | None => ret 0%float
  | Some ms => ret (PipelineManager_GetCurrentTime ms)
  end.

Definition Duration : M float :=
  e <- self ;;
  match media_source_ e with
  | None => ret 0%float
  | Some ms => ret (PipelineManager_GetDuration ms)
  end.

Definition PlaybackRate : M float :=
  e <- self ;;
  match media_source_ e with
  | None => ret 1%float
  | Some ms => ret (PipelineManager_GetPlaybackRate ms)
  end.

End Getters.

(* ------------------------------------------------------------------ *)
(** ** The cue-checking loop *)

Section CueChecks.

Context {collab : Collaborators}.

(** A call [text_track->CheckForCueChange(newTime, oldTime)]. *)
Record CueCheck : Type := mkCueCheck {
  checked_track : TextTrack;
  check_newTime : float;
  check_oldTime : float
}.

(** [CheckForCueChange(newTime, oldTime)]: the calls it makes on the text
    tracks, in the order it makes them. *)
Definition CheckForCueChange (newTime oldTime : float) (e : HTMLVideoElement)
    : list CueCheck :=
  map (fun text_track => mkCueCheck text_track newTime oldTime)
      (text_tracks e).

(** The loop of [ThreadMain] as a function of what its iterations read: each
    iteration is the time [CurrentTime()] answered and the members as the
    iteration saw them; the list ends where the shutdown flag was seen.  The
    result is the calls made on the text tracks and the last value of
    [lastTime]. *)
Fixpoint ThreadMain_loop
    (lastTime : float) (iterations : list (float * HTMLVideoElement))
    : list CueCheck * float :=
  match iterations with
  | [] => ([], lastTime)
  | (time, e) :: rest =>
      if PipelineStatus.eqb (pipeline_status_ e) PipelineStatus.Playing then
        let (checks, final) := ThreadMain_loop time rest in
        (CheckForCueChange time lastTime e ++ checks, final)
      else ThreadMain_loop lastTime rest
  end.

(** [ThreadMain]: [first] is the time read before the loop. *)
Definition ThreadMain
    (first : float) (iterations : list (float * HTMLVideoElement))
    : list CueCheck * float :=
  ThreadMain_loop first iterations.

End CueChecks.

(* ------------------------------------------------------------------ *)
(** ** [src/js/dom/document.cc] *)

Module Document.

Section Tree.

(** The nodes of the tree and [Node::is_element], declared outside the
    sources. *)
Variable Node : Type.
Variable is_element : Node -> bool.

(** [Document::DocumentElement()] on the document's [child_nodes()]. *)
Fixpoint DocumentElement (child_nodes : list Node) : option Node :=
  match child_nodes with
  | [] => None
  | child :: rest =>
      if is_element child then Some child else DocumentElement rest
  end.

End Tree.

(** The address of a [Document] object. *)
Definition Pointer : Set := nat.

(** [Document::CreateGlobalDocument()] on the static [instance_];
    [allocated] is the address [new Document()] returned.  The result is the
    pointer returned with the new [instance_], or nothing when the [DCHECK]
    aborts. *)
Definition CreateGlobalDocument
    (DCHECK_IS_ON : bool) (allocated : Pointer) (instance_ : option Pointer)
    : option (Pointer * option Pointer) :=
  if DCHECK_IS_ON && negb (is_null instance_) then None
  else Some (allocated, Some allocated).

(** [Document::~Document()] on the static [instance_]. *)
Definition destroy (this : Pointer) (instance_ : option Pointer)
    : option Pointer :=
  match instance_ with
  | Some p => if Nat.eqb p this then None else instance_
  | None => instance_
  end.

End Document.

(* ------------------------------------------------------------------ *)
(** ** More vocabulary *)

Section MoreVocabulary.

Context {collab : Collaborators}.

(** The events of a pipeline-status report, [prev] being the stored status
    and [status] the reported one. *)
Definition status_events (prev status : PipelineStatus.t)
    : list EventType.t :=
  if PipelineStatus.eqb status prev then
    if is_seeking status then [EventType.Seeking] else []
  else
    match status with
    | PipelineStatus.Initializing => [EventType.Emptied]
    | PipelineStatus.Playing =>
        match prev with
        | PipelineStatus.Paused => [EventType.Play; EventType.Playing]
        | PipelineStatus.SeekingPlay => [EventType.Seeked; EventType.Playing]
        | _ => [EventType.Playing]
        end
    | PipelineStatus.Paused =>
        match prev with
        | PipelineStatus.Playing | PipelineStatus.Stalled => [EventType.Pause]
        | PipelineStatus.SeekingPause => [EventType.Seeked]
        | _ => []
        end
    | PipelineStatus.Stalled => []
    | PipelineStatus.SeekingPlay | PipelineStatus.SeekingPause =>
        [EventType.Seeking]
    | PipelineStatus.Ended =>
        match prev with
        | PipelineStatus.Playing => [EventType.Pause; EventType.Ended]
        | PipelineStatus.SeekingPlay | PipelineStatus.SeekingPause =>
            [EventType.Seeked; EventType.Ended]
        | _ => [EventType.Ended]
        end
    | PipelineStatus.Errored => [EventType.Error]
    end.

(** The events of a ready-state report other than [ReadyStateChange]. *)
Definition is_threshold_event (ev : EventType.t) : bool :=
  match ev with
  | EventType.LoadedMetaData | EventType.LoadedData | EventType.CanPlay
  | EventType.Waiting => true
  | _ => false
  end.

(** The last volume the controller was given, and through which source. *)
Fixpoint last_volume_call (cs : list Call) : option (MediaSource * float) :=
  match cs with
  | [] => None
  | c :: rest =>
      match last_volume_call rest with
      | Some found => Some found
      | None =>
          match c with
          | Controller_SetVolume ms volume => Some (ms, volume)
          | _ => None
          end
      end
  end.

(** How many text tracks a sequence of operations adds. *)
Fixpoint count_AddTextTrack (ops : list Op) : nat :=
  match ops with
  | [] => 0
  | Call_AddTextTrack _ _ _ :: rest => S (count_AddTextTrack rest)
  | _ :: rest => count_AddTextTrack rest
  end.

(** A callback of the pipeline. *)
Definition is_callback (op : Op) : bool :=
  match op with
  | Call_OnReadyStateChanged _ | Call_OnPipelineStatusChanged _
  | Call_OnMediaError _ _ => true
  | _ => false
  end.

(** Every callback of [ops], run from [w], reaches the element while a media
    source is attached. *)
Fixpoint callbacks_while_attached (dc : bool) (ops : list Op) (w : World)
    : Prop :=
  match ops with
  | [] => True
  | op :: rest =>
      (is_callback op = true -> media_source_ (this w) <> None) /\
      match step dc op w with
      | Done _ w1 => callbacks_while_attached dc rest w1
      | Aborted => True
      end
  end.

(** The controller was last given the volume the element now wants, through
    the media source now attached. *)
Definition volume_in_sync (w : World) : Prop :=
  forall ms,
    media_source_ (this w) = Some ms ->
    last_volume_call (calls w) = Some (ms, pushed_volume (this w)).

(** What holds of an element whose callbacks come from an attached media
    source: without media source it is back at Initializing and
    HAVE_NOTHING, and with the status Errored it has an error recorded. *)
Definition follows_the_pipeline (e : HTMLVideoElement) : Prop :=
  (media_source_ e = None ->
   pipeline_status_ e = PipelineStatus.Initializing /\
   ready_state e = HAVE_NOTHING) /\
  (pipeline_status_ e = PipelineStatus.Errored -> error e <> None).

End MoreVocabulary.

(** Readings to evaluate the getters on: a pipeline at 12.5 s of 60 s. *)
Definition sample_readings : @Readings sample_collaborators :=
  @Build_Readings sample_collaborators
    (fun _ => 12.5%float) (fun _ => 60%float) (fun _ => 1%float)
    (fun _ _ => [mkBufferedRange 0%float 30%float])
    (fun _ => 60%float) tt.

(** Operations and a text track of the sample world. *)
Definition add_track (label : option string) : @Op sample_collaborators :=
  Call_AddTextTrack (collab := sample_collaborators) tt label None.

Definition report_failure : @Op sample_collaborators :=
  Call_OnMediaError (collab := sample_collaborators) tt 7%Z.

Definition unnamed_track : @TextTrack sample_collaborators :=
  mkTextTrack (collab := sample_collaborators) tt EmptyString EmptyString.

(** A source is attached, its pipeline fails, and it is unloaded. *)
Definition failing_session : list (@Op sample_collaborators) :=
  [Call_SetSource sample_registry "blob:1";
   Call_OnPipelineStatusChanged PipelineStatus.Errored; Call_Load].

(* ------------------------------------------------------------------ *)
(** ** Properties *)

(** Unfold the methods down to the world they return. *)
Ltac unfold_methods :=
  unfold step, discard, SetSource, Load, OnReadyStateChanged,
    OnPipelineStatusChanged, OnMediaError, SetMediaKeys, SetCurrentTime,
    SetPlaybackRate, SetMuted, SetVolume, Play, Pause, AddTextTrack,
    bind, ret, self, assign, ScheduleEvent, call, DCHECK, when in *.

Ltac unfold_vocabulary :=
  unfold Load_world, unloaded, unload_events, attach_calls, pushed_volume,
    record_error, emits, updates, sends, attachment_ok in *.

(** Open a world into its members. *)
Ltac open_world w :=
  let e := fresh "e" in
  destruct w as [e ?ev ?cl];
  destruct e as [?rs ?ap ?lp ?keys ?tracks ?err ?ms ?ps ?vol ?wp ?mu].

(** Bring the scheduled events into the shape [ev ++ [a; b; ...]]. *)
Ltac normalise_traces :=
  repeat rewrite <- app_assoc; repeat rewrite app_nil_r; cbn [app].

Section Properties.

Context {collab : Collaborators}.

Lemma PipelineStatus_eqb_eq (a b : PipelineStatus.t) :
  PipelineStatus.eqb a b = true <-> a = b.
Proof.
  split.
  - destruct a, b; cbn; intro H; solve [reflexivity | discriminate H].
  - intros ->. destruct b; reflexivity.
Qed.

Lemma PipelineStatus_eqb_refl (a : PipelineStatus.t) :
  PipelineStatus.eqb a a = true.
Proof. now apply PipelineStatus_eqb_eq. Qed.

(** [Load()] returns, in either build, and leaves [Load_world]. *)
Lemma Load_returns (dc : bool) (w : World) :
  Load dc w = Done tt (Load_world w).
Proof.
  open_world w. unfold_methods. unfold_vocabulary. cbn.
  destruct ms as [m|]; cbn; [|reflexivity].
  rewrite andb_false_r. cbn.
  destruct rs, ps; cbn; normalise_traces; reflexivity.
Qed.


(** The events of a ready-state change, taken on their own: each threshold
    event is present exactly when its threshold is crossed, none is repeated,
    and [ReadyStateChange] closes the list. *)
Lemma spec_ready_state_events_facts (old new : MediaReadyState) :
  let evs := spec_ready_state_events old new in
  (In EventType.LoadedMetaData evs <->
   (ready_state_value old < ready_state_value HAVE_METADATA
    <= ready_state_value new)%Z) /\
  (In EventType.LoadedData evs <->
   (ready_state_value old < ready_state_value HAVE_CURRENT_DATA
    <= ready_state_value new)%Z) /\
  (In EventType.CanPlay evs <->
   (ready_state_value old < ready_state_value HAVE_ENOUGH_DATA
    <= ready_state_value new)%Z) /\
  (In EventType.Waiting evs <->
   (ready_state_value new < ready_state_value HAVE_FUTURE_DATA
    <= ready_state_value old)%Z /\ new <> HAVE_NOTHING) /\
  NoDup evs /\
  (exists before,
     evs = before ++ [EventType.ReadyStateChange] /\
     ~ In EventType.ReadyStateChange before).
Proof.
  destruct old, new; cbn;
    (split; [|split; [|split; [|split; [|split]]]]);
    try solve [intuition (discriminate || lia || congruence)];
    try solve [repeat constructor; cbn; intuition discriminate].
  all: match goal with
       | |- exists before, ?l = _ /\ _ =>
           exists (removelast l); cbn; split;
           [reflexivity | intuition discriminate]
       end.
Qed.

(** C2.  Ready-state transition to a different state, the attachment
    precondition holding: the call returns; the events it schedules are those
    of the specification's threshold order (LoadedMetaData iff Metadata is
    crossed upward, LoadedData iff CurrentData is, Waiting iff FutureData is
    crossed downward to a state other than NoData, CanPlay iff EnoughData is
    crossed upward), each at most once, with ReadyStateChange last; and in
    the world it leaves the stored ready state is the new one, the scheduled
    events are the former ones followed by these, and the calls, the media
    source, the pipeline status and the error are as before. *)
Theorem C2_ready_state_transition
    (dc : bool) (w : World) (new : MediaReadyState) :
  attachment_ok (this w) new ->
  new <> ready_state (this w) ->
  let old := ready_state (this w) in
  let evs := spec_ready_state_events old new in
  OnReadyStateChanged dc new w =
  Done tt (updates (set_ready_state new) (emits evs w)) /\
  (exists w',
     OnReadyStateChanged dc new w = Done tt w' /\
     ready_state (this w') = new /\
     scheduled w' = scheduled w ++ evs /\
     calls w' = calls w /\
     media_source_ (this w') = media_source_ (this w) /\
     pipeline_status_ (this w') = pipeline_status_ (this w) /\
     error (this w') = error (this w)) /\
  (In EventType.LoadedMetaData evs <->
   (ready_state_value old < ready_state_value HAVE_METADATA
    <= ready_state_value new)%Z) /\
  (In EventType.LoadedData evs <->
   (ready_state_value old < ready_state_value HAVE_CURRENT_DATA
    <= ready_state_value new)%Z) /\
  (In EventType.CanPlay evs <->
   (ready_state_value old < ready_state_value HAVE_ENOUGH_DATA
    <= ready_state_value new)%Z) /\
  (In EventType.Waiting evs <->
   (ready_state_value new < ready_state_value HAVE_FUTURE_DATA
    <= ready_state_value old)%Z /\ new <> HAVE_NOTHING) /\
  NoDup evs /\
  (exists before,
     evs = before ++ [EventType.ReadyStateChange] /\
     ~ In EventType.ReadyStateChange before).
Proof.
  intros Hattach Hnew old evs.
  assert (OnReadyStateChanged dc new w =
          Done tt (updates (set_ready_state new) (emits evs w))) as Hreturn.
  { subst old evs. open_world w. unfold_methods. unfold_vocabulary.
    cbn in *.
    destruct ms as [m|], rs, new; cbn in *;
      try congruence; rewrite ?andb_false_r; cbn;
      normalise_traces; reflexivity. }
  split; [exact Hreturn|].
  split; [|apply spec_ready_state_events_facts].
  eexists. split; [exact Hreturn|].
  repeat split; reflexivity.
Qed.

(** C3.  Reporting the status the element already has returns and leaves the
    whole world as it was, unless that status is SeekingPlay or SeekingPause:
    then exactly one Seeking is scheduled and the members and the calls stay
    as they were.  Reporting SeekingPlay twice in a row, from any status,
    schedules exactly Seeking, Seeking; the second call leaves the members
    that the first one left. *)
Theorem C3_repeated_status_report (dc : bool) (w : World) :
  OnPipelineStatusChanged dc (pipeline_status_ (this w)) w =
  Done tt (if is_seeking (pipeline_status_ (this w))
           then emits [EventType.Seeking] w else w) /\
  exists w1,
    OnPipelineStatusChanged dc PipelineStatus.SeekingPlay w = Done tt w1 /\
    pipeline_status_ (this w1) = PipelineStatus.SeekingPlay /\
    OnPipelineStatusChanged dc PipelineStatus.SeekingPlay w1 =
    Done tt (emits [EventType.Seeking] w1) /\
    scheduled (emits [EventType.Seeking] w1) =
    scheduled w ++ [EventType.Seeking; EventType.Seeking].
Proof.
  open_world w. unfold_methods. unfold_vocabulary. unfold is_seeking. cbn.
  split.
  - rewrite PipelineStatus_eqb_refl. destruct ps; reflexivity.
  - destruct ps; cbn; eexists; (split; [reflexivity|]); cbn;
      (split; [reflexivity|]); (split; [reflexivity|]);
      normalise_traces; reflexivity.
Qed.

(** C10.  The transitions [OnPipelineStatusChanged] asserts.  To Playing from
    Paused, SeekingPlay, Stalled or Initializing, and to Paused from Playing,
    Stalled, SeekingPause or Initializing, the call returns in a debug build
    as in a release build.  From any other previous status (to Playing from
    SeekingPause, Ended or Errored; to Paused from SeekingPlay, Ended or
    Errored) the assertion fails: a debug build aborts, and a release build
    schedules no Play, Pause or Seeked event: only Playing for the first, and
    nothing for the second. *)
Theorem C10_asserted_transitions (w : World) :
  let prev := pipeline_status_ (this w) in
  (In prev [PipelineStatus.Paused; PipelineStatus.SeekingPlay;
            PipelineStatus.Stalled; PipelineStatus.Initializing] ->
   forall dc, exists w',
     OnPipelineStatusChanged dc PipelineStatus.Playing w = Done tt w') /\
  (In prev [PipelineStatus.Playing; PipelineStatus.Stalled;
            PipelineStatus.SeekingPause; PipelineStatus.Initializing] ->
   forall dc, exists w',
     OnPipelineStatusChanged dc PipelineStatus.Paused w = Done tt w') /\
  (In prev [PipelineStatus.SeekingPause; PipelineStatus.Ended;
            PipelineStatus.Errored] ->
   OnPipelineStatusChanged true PipelineStatus.Playing w = Aborted /\
   OnPipelineStatusChanged false PipelineStatus.Playing w =
   Done tt (updates (set_pipeline_status_ PipelineStatus.Playing)
              (emits [EventType.Playing] w))) /\
  (In prev [PipelineStatus.SeekingPlay; PipelineStatus.Ended;
            PipelineStatus.Errored] ->
   OnPipelineStatusChanged true PipelineStatus.Paused w = Aborted /\
   OnPipelineStatusChanged false PipelineStatus.Paused w =
   Done tt (updates (set_pipeline_status_ PipelineStatus.Paused) w)).
Proof.
  open_world w. unfold_methods. unfold_vocabulary. cbn.
  (split; [|split; [|split]]); intros H; cbn in H;
    repeat match type of H with
           | _ \/ _ => destruct H as [H | H]
           | False => destruct H
           end;
    subst ps; try (intros dc; destruct dc); cbn;
    solve [eexists; reflexivity | split; reflexivity].
Qed.

(** *** What the callbacks and the source methods leave *)

(** A ready-state callback that returns has stored the reported state, has
    made no call, and in a debug build met its precondition. *)
Lemma OnReadyStateChanged_element
    (dc : bool) (r : MediaReadyState) (w w' : World) :
  OnReadyStateChanged dc r w = Done tt w' ->
  this w' = set_ready_state r (this w) /\
  calls w' = calls w /\
  (dc = true -> attachment_ok (this w) r).
Proof.
  open_world w. unfold_methods. unfold_vocabulary. cbn.
  destruct dc, ms as [m|], rs, r; cbn; intros H;
    solve [discriminate H
          | injection H as <-; cbn;
            repeat split; solve [reflexivity | discriminate]].
Qed.

(** A status callback that returns has stored the reported status, has made
    no call, and has touched the error only on a transition to Errored. *)
Lemma OnPipelineStatusChanged_element
    (dc : bool) (s : PipelineStatus.t) (w w' : World) :
  OnPipelineStatusChanged dc s w = Done tt w' ->
  this w' =
  set_pipeline_status_ s
    (if PipelineStatus.eqb s PipelineStatus.Errored &&
        negb (PipelineStatus.eqb s (pipeline_status_ (this w)))
     then record_error generic_decode_error (this w) else this w) /\
  calls w' = calls w.
Proof.
  open_world w. unfold_methods. unfold_vocabulary. cbn.
  destruct dc, s, ps, err as [x|]; cbn; intros H;
    solve [discriminate H
          | injection H as <-; cbn; split; reflexivity].
Qed.

Lemma Load_world_sourceless (w : World) :
  media_source_ (this (Load_world w)) = None.
Proof.
  open_world w. unfold_vocabulary. cbn. destruct ms; reflexivity.
Qed.

Lemma Load_world_error (w : World) : error (this (Load_world w)) = None.
Proof.
  open_world w. unfold_vocabulary. cbn. destruct ms; reflexivity.
Qed.

(** [SetSource] returns, in either build: after [Load()] it stops on an empty
    url, throws on an url the registry does not know, and otherwise attaches
    the media source found and makes [attach_calls] on it. *)
Lemma SetSource_returns
    (dc : bool) (find : string -> option MediaSource) (src : string)
    (w : World) :
  SetSource dc find src w =
  if empty src then Done (Returned tt) (Load_world w)
  else
    match find src with
    | Some ms =>
        Done (Returned tt)
          (sends (attach_calls ms (this (Load_world w)))
             (updates (set_media_source_ (Some ms)) (Load_world w)))
    | None =>
        Done (Threw (DOMException NotSupportedError
                       "Unknown MediaSource URL given."))
          (Load_world w)
    end.
Proof.
  unfold SetSource, bind. rewrite Load_returns.
  unfold self, DCHECK. rewrite Load_world_sourceless. cbn.
  rewrite andb_false_r.
  destruct (empty src); [reflexivity|].
  generalize (Load_world_sourceless w); generalize (Load_world w).
  intros w1 Hnone. open_world w1. cbn in Hnone. subst ms.
  unfold_methods. unfold_vocabulary. cbn.
  destruct (find src) as [m|]; cbn; [|reflexivity].
  destruct (ap || wp); cbn; normalise_traces; reflexivity.
Qed.

(** *** First error wins *)

(** A report on an element with a recorded error returns and keeps it. *)
Lemma report_keeps_error
    (dc : bool) (r : ErrorReport) (w : World) (e : MediaError) :
  error (this w) = Some e ->
  exists w', step dc (report_op r) w = Done tt w' /\
             error (this w') = Some e.
Proof.
  intros He. open_world w. cbn in He. subst err.
  destruct r as [source status|]; unfold_methods; cbn.
  - eexists; split; reflexivity.
  - destruct ps; cbn; eexists; split; reflexivity.
Qed.

Lemma reports_keep_error
    (dc : bool) (reports : list ErrorReport) (w : World) (e : MediaError) :
  error (this w) = Some e ->
  exists w', run dc (map report_op reports) w = Done tt w' /\
             error (this w') = Some e.
Proof.
  revert w. induction reports as [|r rest IH]; intros w He.
  - exists w. split; [reflexivity | exact He].
  - destruct (report_keeps_error dc r w He) as (w1 & Hstep & He1).
    destruct (IH w1 He1) as (w' & Hrun & He').
    exists w'. split; [|exact He'].
    cbn [map run]. unfold bind. rewrite Hstep. exact Hrun.
Qed.

(** On an element without recorded error, a report that is not an Errored
    status reported again returns and records its error. *)
Lemma report_writes_error (dc : bool) (r : ErrorReport) (w : World) :
  error (this w) = None ->
  (r = Report_Errored ->
   pipeline_status_ (this w) <> PipelineStatus.Errored) ->
  exists w1, step dc (report_op r) w = Done tt w1 /\
             error (this w1) = Some (reported_error r).
Proof.
  intros Hnone Htransition. open_world w. cbn in *. subst err.
  destruct r as [source status|]; unfold_methods; cbn.
  - eexists; split; reflexivity.
  - specialize (Htransition eq_refl).
    destruct ps; cbn; solve [congruence | eexists; split; reflexivity].
Qed.

(** An Errored status reported again changes nothing. *)
Lemma repeated_Errored_is_skipped (dc : bool) (w : World) :
  pipeline_status_ (this w) = PipelineStatus.Errored ->
  OnPipelineStatusChanged dc PipelineStatus.Errored w = Done tt w.
Proof.
  intros Hps. open_world w. cbn in Hps. subst ps. reflexivity.
Qed.

(** On an element without recorded error, a sequence of reports returns and
    leaves the error of its first report that is not a repeated Errored. *)
Lemma reports_write_first_error
    (dc : bool) (reports : list ErrorReport) (w : World) :
  error (this w) = None ->
  exists w', run dc (map report_op reports) w = Done tt w' /\
             error (this w') =
             first_error_written (pipeline_status_ (this w)) reports.
Proof.
  revert w. induction reports as [|r rest IH]; intros w Hnone.
  - exists w. split; [reflexivity | exact Hnone].
  - assert (Hwritten :
              (r = Report_Errored ->
               pipeline_status_ (this w) <> PipelineStatus.Errored) ->
              first_error_written (pipeline_status_ (this w)) (r :: rest) =
              Some (reported_error r) ->
              exists w', run dc (map report_op (r :: rest)) w = Done tt w' /\
                         error (this w') =
                         first_error_written (pipeline_status_ (this w))
                           (r :: rest)).
    { intros Htransition ->.
      destruct (@report_writes_error dc r w Hnone Htransition)
        as (w1 & Hstep & He1).
      destruct (reports_keep_error dc rest w1 He1) as (w' & Hrun & He').
      exists w'. split; [|exact He'].
      cbn [map run]. unfold bind. rewrite Hstep. exact Hrun. }
    destruct r as [source status|].
    + apply Hwritten; [discriminate | reflexivity].
    + destruct (PipelineStatus.eqb (pipeline_status_ (this w))
                  PipelineStatus.Errored) eqn:E.
      * cbn [first_error_written]. rewrite E.
        apply PipelineStatus_eqb_eq in E.
        destruct (IH w Hnone) as (w' & Hrun & He').
        exists w'. split; [|exact He'].
        cbn [map run report_op step]. unfold bind.
        rewrite (repeated_Errored_is_skipped dc w E). exact Hrun.
      * apply Hwritten.
        -- intros _ Hps. rewrite Hps in E. discriminate E.
        -- cbn [first_error_written]. rewrite E. reflexivity.
Qed.

(** C6 (as amended).  Error recording is first-write-wins.  [OnMediaError]
    always returns and schedules Error, and records its decode error only
    when no error is recorded.  A report of Errored on an element whose
    status is not Errored likewise schedules Error, records the generic
    decode error only when no error is recorded, and commits Errored; a
    report of Errored on an element whose status is Errored already returns
    and changes nothing: it schedules no event and records no error.  Hence
    any sequence of these two calls returns and keeps an error that is
    already recorded; on an element without recorded error the sequence
    leaves the error of its first call when that call is not an Errored
    reported again, and in general of its first call that is not one. *)
Theorem C6_first_error_wins (dc : bool) (w : World) :
  (forall source status,
     OnMediaError source status w =
     Done tt
       (updates (record_error
                   (mkMediaError MEDIA_ERR_DECODE (GetErrorString status)))
          (emits [EventType.Error] w))) /\
  (pipeline_status_ (this w) <> PipelineStatus.Errored ->
   OnPipelineStatusChanged dc PipelineStatus.Errored w =
   Done tt
     (updates (set_pipeline_status_ PipelineStatus.Errored)
        (updates (record_error generic_decode_error)
           (emits [EventType.Error] w)))) /\
  (forall reports e,
     error (this w) = Some e ->
     exists w', run dc (map report_op reports) w = Done tt w' /\
                error (this w') = Some e) /\
  (forall first rest,
     error (this w) = None ->
     (first = Report_Errored ->
      pipeline_status_ (this w) <> PipelineStatus.Errored) ->
     exists w', run dc (map report_op (first :: rest)) w = Done tt w' /\
                error (this w') = Some (reported_error first)) /\
  (forall reports,
     error (this w) = None ->
     exists w', run dc (map report_op reports) w = Done tt w' /\
                error (this w') =
                first_error_written (pipeline_status_ (this w)) reports) /\
  (pipeline_status_ (this w) = PipelineStatus.Errored ->
   OnPipelineStatusChanged dc PipelineStatus.Errored w = Done tt w) /\
  (forall source status,
     exists w',
       OnMediaError source status w = Done tt w' /\
       scheduled w' = scheduled w ++ [EventType.Error] /\
       error (this w') =
       Some (match error (this w) with
             | Some recorded => recorded
             | None => mkMediaError MEDIA_ERR_DECODE (GetErrorString status)
             end) /\
       pipeline_status_ (this w') = pipeline_status_ (this w)) /\
  (pipeline_status_ (this w) <> PipelineStatus.Errored ->
   exists w',
     OnPipelineStatusChanged dc PipelineStatus.Errored w = Done tt w' /\
     scheduled w' = scheduled w ++ [EventType.Error] /\
     error (this w') =
     Some (match error (this w) with
           | Some recorded => recorded
           | None => generic_decode_error
           end) /\
     pipeline_status_ (this w') = PipelineStatus.Errored).
Proof.
  repeat apply conj.
  - intros source status. open_world w. unfold_methods. unfold_vocabulary.
    cbn. destruct err; reflexivity.
  - intros Hps. open_world w. unfold_methods. unfold_vocabulary.
    cbn in *. destruct ps, err; cbn; solve [reflexivity | congruence].
  - intros reports e. apply reports_keep_error.
  - intros first rest Hnone Htransition.
    destruct (@report_writes_error dc first w Hnone Htransition)
      as (w1 & Hstep & He1).
    destruct (reports_keep_error dc rest w1 He1) as (w' & Hrun & He').
    exists w'. split; [|exact He'].
    cbn [map run]. unfold bind. rewrite Hstep. exact Hrun.
  - intros reports. apply reports_write_first_error.
  - apply repeated_Errored_is_skipped.
  - intros source status. open_world w. unfold_methods. cbn.
    destruct err; eexists; repeat split; reflexivity.
  - intros Hps. open_world w. unfold_methods. cbn in *.
    destruct ps, err; cbn; try congruence;
      eexists; repeat split; reflexivity.
Qed.

(** *** The members after one operation *)

(** What an operation that returns has done to the members. *)
Lemma step_element (dc : bool) (op : Op) (w w' : World) :
  step dc op w = Done tt w' ->
  match op with
  | Call_OnReadyStateChanged r =>
      this w' = set_ready_state r (this w) /\
      (dc = true -> attachment_ok (this w) r)
  | Call_OnPipelineStatusChanged s =>
      this w' =
      set_pipeline_status_ s
        (if PipelineStatus.eqb s PipelineStatus.Errored &&
            negb (PipelineStatus.eqb s (pipeline_status_ (this w)))
         then record_error generic_decode_error (this w) else this w)
  | Call_OnMediaError _ status =>
      this w' =
      record_error (mkMediaError MEDIA_ERR_DECODE (GetErrorString status))
        (this w)
  | Call_SetMediaKeys keys =>
      this w' = this w \/ this w' = set_media_keys keys (this w)
  | Call_Load => this w' = this (Load_world w)
  | Call_SetSource find src =>
      this w' =
      set_media_source_ (if empty src then None else find src)
        (this (Load_world w))
  | Call_SetCurrentTime _ | Call_SetPlaybackRate _ => this w' = this w
  | Call_SetMuted muted => this w' = set_is_muted_ muted (this w)
  | Call_SetVolume volume => this w' = set_volume_ volume (this w)
  | Call_Play =>
      this w' = this w \/ this w' = set_will_play_ true (this w)
  | Call_Pause =>
      this w' = this w \/ this w' = set_will_play_ false (this w)
  | Call_AddTextTrack _ _ _ =>
      exists tracks, this w' = set_text_tracks tracks (this w)
  | Write_autoplay v => this w' = set_autoplay v (this w)
  | Write_loop v => this w' = set_loop v (this w)
  end.
Proof.
  destruct op; cbn [step]; intros H.
  - apply OnReadyStateChanged_element in H. tauto.
  - apply OnPipelineStatusChanged_element in H. tauto.
  - open_world w. unfold_methods. unfold_vocabulary. cbn in *.
    destruct err; injection H as <-; reflexivity.
  - open_world w. unfold_methods. cbn in *.
    destruct keys, ms; cbn in H; injection H as <-; cbn; auto.
  - rewrite Load_returns in H. injection H as <-. reflexivity.
  - unfold discard, bind in H. rewrite SetSource_returns in H.
    pose proof (Load_world_sourceless w) as Hnone.
    destruct (Load_world w) as [e1 ev1 cl1]. cbn in Hnone.
    destruct e1. cbn in Hnone. subst.
    destruct (empty src); [|destruct (FindMediaSource src)];
      injection H as <-; reflexivity.
  - open_world w. unfold_methods. cbn in *.
    destruct ms; injection H as <-; reflexivity.
  - open_world w. unfold_methods. cbn in *.
    destruct ms; injection H as <-; reflexivity.
  - open_world w. unfold_methods. cbn in *.
    destruct ms; injection H as <-; reflexivity.
  - open_world w. unfold_methods. cbn in *.
    destruct ms; injection H as <-; reflexivity.
  - open_world w. unfold_methods. cbn in *.
    destruct ms; injection H as <-; cbn; auto.
  - open_world w. unfold_methods. cbn in *.
    destruct ms; injection H as <-; cbn; auto.
  - open_world w. unfold_methods. cbn in *.
    injection H as <-. eexists. reflexivity.
  - unfold assign in H. injection H as <-. reflexivity.
  - unfold assign in H. injection H as <-. reflexivity.
Qed.

(** An operation that does not call [Load()] keeps a recorded error. *)
Lemma step_keeps_error
    (dc : bool) (op : Op) (w w' : World) (e : MediaError) :
  performs_Load op = false ->
  error (this w) = Some e ->
  step dc op w = Done tt w' ->
  error (this w') = Some e.
Proof.
  intros Hop He H. apply step_element in H.
  destruct op; try discriminate Hop; cbn in H;
    repeat match type of H with
           | _ /\ _ => destruct H as [H _]
           | _ \/ _ => destruct H as [H | H]
           | exists _, _ => destruct H as [? H]
           end;
    rewrite H; try destruct (_ && _); unfold record_error;
    rewrite ?He; cbn; rewrite ?He; reflexivity.
Qed.

(** C7 (as amended).  [Load()] always returns and leaves no recorded error.
    Every public operation that does not call [Load()] (every one except
    [Load] itself and [SetSource], whose first statement is the call) keeps
    a recorded error.  With a media source attached, [Load()] also closes and
    detaches it, sets the ready state to HAVE_NOTHING, the pipeline status to
    Initializing and the will-play latch to false.  Without one it only
    clears the error.  Calling it twice is calling it once. *)
Theorem C7_load_clears_error (dc : bool) (w : World) :
  (exists w', Load dc w = Done tt w' /\ error (this w') = None) /\
  (forall op w' e,
     performs_Load op = false ->
     error (this w) = Some e ->
     step dc op w = Done tt w' ->
     error (this w') = Some e) /\
  (forall ms,
     media_source_ (this w) = Some ms ->
     exists w',
       Load dc w = Done tt w' /\
       calls w' = calls w ++ [CloseMediaSource ms] /\
       this w' = unloaded (this w) /\
       media_source_ (this w') = None /\
       ready_state (this w') = HAVE_NOTHING /\
       pipeline_status_ (this w') = PipelineStatus.Initializing /\
       will_play_ (this w') = false) /\
  (media_source_ (this w) = None ->
   Load dc w = Done tt (updates (set_error None) w)) /\
  bind (Load dc) (fun _ => Load dc) w = Load dc w.
Proof.
  split; [|split; [|split; [|split]]].
  - exists (Load_world w). split; [apply Load_returns|apply Load_world_error].
  - intros op w' e. apply step_keeps_error.
  - intros m Hm. exists (Load_world w). split; [apply Load_returns|].
    unfold Load_world. rewrite Hm. cbn. repeat split; reflexivity.
  - intros Hm. rewrite Load_returns. unfold Load_world. now rewrite Hm.
  - unfold bind. rewrite !Load_returns.
    pose proof (Load_world_sourceless w) as Hnone.
    pose proof (Load_world_error w) as Herr.
    destruct (Load_world w) as [e1 ev1 cl1]. destruct e1. cbn in *.
    subst. reflexivity.
Qed.

(** *** Source lifecycle *)

Lemma empty_neq (s : string) : s <> EmptyString -> empty s = false.
Proof. destruct s; [congruence | reflexivity]. Qed.

(** [Load()] leaves autoplay, the volume and the muted flag alone, and keeps
    the will-play latch only when there was no media source to unload. *)
Lemma Load_world_members (w : World) :
  autoplay (this (Load_world w)) = autoplay (this w) /\
  volume_ (this (Load_world w)) = volume_ (this w) /\
  is_muted_ (this (Load_world w)) = is_muted_ (this w) /\
  will_play_ (this (Load_world w)) =
  is_null (media_source_ (this w)) && will_play_ (this w).
Proof.
  open_world w. unfold_vocabulary. cbn. destruct ms; cbn; auto.
Qed.

Lemma Load_world_ready_state (w : World) :
  sourceless_has_nothing (this w) ->
  ready_state (this (Load_world w)) = HAVE_NOTHING.
Proof.
  unfold sourceless_has_nothing. open_world w. unfold_vocabulary. cbn.
  destruct ms; cbn; auto.
Qed.

Lemma count_play_app (l l' : list Call) :
  count_play (l ++ l') = count_play l + count_play l'.
Proof.
  induction l as [|c l IH]; [reflexivity|].
  destruct c; cbn; rewrite IH; reflexivity.
Qed.

(** C5.  [SetSource(url)] starts with [Load()], whose world is [w1] below.
    On the empty url it returns without exception and the element is left
    without media source.  On a non-empty url the registry does not resolve
    it throws the DOM exception NotSupportedError; no error is recorded on
    the element, which is left without media source and, its ready state
    having been HAVE_NOTHING whenever it had no source, with ready state
    HAVE_NOTHING.  On a non-empty url resolving to [ms] it returns without
    exception, [ms] is attached, and the calls made are: open [ms], set the
    volume to muted ? 0 : volume, and then one pipeline play if and only if
    autoplay or the will-play latch is set.  The latch is read after
    [Load()]: it is the latch of the call's entry when no media source was
    attached then, and a cleared one otherwise. *)
Theorem C5_set_source
    (dc : bool) (find : string -> option MediaSource) (src : string)
    (w : World) :
  let w1 := Load_world w in
  Load dc w = Done tt w1 /\
  autoplay (this w1) = autoplay (this w) /\
  will_play_ (this w1) =
  is_null (media_source_ (this w)) && will_play_ (this w) /\
  (src = EmptyString ->
   SetSource dc find src w = Done (Returned tt) w1 /\
   media_source_ (this w1) = None) /\
  (src <> EmptyString -> find src = None ->
   SetSource dc find src w =
   Done (Threw (DOMException NotSupportedError
                  "Unknown MediaSource URL given.")) w1 /\
   error (this w1) = None /\
   media_source_ (this w1) = None /\
   (sourceless_has_nothing (this w) ->
    ready_state (this w1) = HAVE_NOTHING)) /\
  (forall ms,
     src <> EmptyString -> find src = Some ms ->
     SetSource dc find src w =
     Done (Returned tt)
       (sends (attach_calls ms (this w1))
          (updates (set_media_source_ (Some ms)) w1)) /\
     attach_calls ms (this w1) =
     [OpenMediaSource ms;
      Controller_SetVolume ms
        (if is_muted_ (this w) then 0%float else volume_ (this w))] ++
     (if autoplay (this w1) || will_play_ (this w1)
      then [PipelineManager_Play ms] else []) /\
     (count_play (attach_calls ms (this w1)) = 1 <->
      autoplay (this w1) = true \/ will_play_ (this w1) = true) /\
     (count_play (attach_calls ms (this w1)) = 0 <->
      autoplay (this w1) = false /\ will_play_ (this w1) = false)).
Proof.
  intros w1. subst w1. split; [apply Load_returns|].
  split; [apply Load_world_members|].
  split; [apply Load_world_members|].
  split; [|split].
  - intros ->. rewrite SetSource_returns. cbn.
    split; [reflexivity|apply Load_world_sourceless].
  - intros Hsrc Hfind. rewrite SetSource_returns, (empty_neq Hsrc), Hfind.
    split; [reflexivity|]. split; [apply Load_world_error|].
    split; [apply Load_world_sourceless|apply Load_world_ready_state].
  - intros m Hsrc Hfind. rewrite SetSource_returns, (empty_neq Hsrc), Hfind.
    split; [reflexivity|].
    destruct (Load_world_members w) as (_ & Hvol & Hmu & _).
    unfold attach_calls, pushed_volume. rewrite Hvol, Hmu.
    split; [reflexivity|].
    destruct (autoplay (this (Load_world w))),
      (will_play_ (this (Load_world w))); cbn;
      split; split; intros H;
      solve [auto | discriminate H | destruct H; discriminate
            | destruct H as [H | H]; discriminate H].
Qed.


(** *** Invariants of the reachable elements *)

(** A property of the members that every permitted operation keeps holds
    after every sequence of permitted operations. *)
Lemma run_invariant
    (dc : bool) (P : HTMLVideoElement -> Prop) (permitted : Op -> Prop) :
  (forall op w w',
     permitted op -> P (this w) -> step dc op w = Done tt w' ->
     P (this w')) ->
  forall ops w w',
    Forall permitted ops -> P (this w) -> run dc ops w = Done tt w' ->
    P (this w').
Proof.
  intros Hstep ops. induction ops as [|op rest IH]; intros w w' Hops HP Hrun.
  - cbn in Hrun. injection Hrun as <-. exact HP.
  - inversion Hops as [|? ? Hop Hrest]; subst.
    cbn [run] in Hrun. unfold bind in Hrun.
    destruct (step dc op w) as [[] w1|] eqn:E; [|discriminate Hrun].
    apply (IH w1 w' Hrest); [|exact Hrun].
    apply (Hstep op w w1 Hop HP E).
Qed.

(** An operation keeps an element without media source at HAVE_NOTHING, in a
    debug build always, and in a release build when its precondition is
    met. *)
Lemma step_keeps_sourceless_has_nothing
    (dc : bool) (op : Op) (w w' : World) :
  dc = true \/ meets_precondition op (this w) ->
  sourceless_has_nothing (this w) ->
  step dc op w = Done tt w' ->
  sourceless_has_nothing (this w').
Proof.
  intros Hpre Hinv H. apply step_element in H.
  destruct op; cbn in H, Hpre;
    repeat match type of H with
           | _ \/ _ => destruct H as [H | H]
           | exists _, _ => destruct H as [? H]
           end;
    try (rewrite H; try destruct (_ && _); unfold record_error;
         try destruct (error (this w)); exact Hinv).
  - destruct H as [H Hattach].
    assert (attachment_ok (this w) new_ready_state) as Hok
      by (destruct Hpre; auto).
    rewrite H. unfold sourceless_has_nothing, attachment_ok in *. cbn.
    intros Hnone. rewrite Hnone in Hok. exact Hok.
  - rewrite H. intros _. now apply Load_world_ready_state.
  - rewrite H. intros _. cbn. now apply Load_world_ready_state.
Qed.

Lemma run_keeps_sourceless_has_nothing
    (dc : bool) (ops : list Op) (w w' : World) :
  dc = true \/ preconditions_met dc ops w ->
  sourceless_has_nothing (this w) ->
  run dc ops w = Done tt w' ->
  sourceless_has_nothing (this w').
Proof.
  revert w. induction ops as [|op rest IH]; intros w Hpre Hinv Hrun.
  - cbn in Hrun. injection Hrun as <-. exact Hinv.
  - cbn [run] in Hrun. unfold bind in Hrun.
    destruct (step dc op w) as [[] w1|] eqn:E; [|discriminate Hrun].
    apply (IH w1); [| |exact Hrun].
    + destruct Hpre as [Hdc | [_ Hrest]]; [left; exact Hdc|].
      right. rewrite E in Hrest. exact Hrest.
    + apply (@step_keeps_sourceless_has_nothing dc op w w1); auto.
      destruct Hpre as [Hdc | [Hop _]]; auto.
Qed.

(** C4 (as amended).  Every element reached from a fresh one by public
    operations that has no media source has ready state HAVE_NOTHING: in a
    debug build, where a failed assertion aborts, for all sequences of
    operations, and in a release build for those whose ready-state callbacks
    meet their precondition.  In a debug build [OnReadyStateChanged] aborts
    when a media source is attached and the reported state is HAVE_NOTHING,
    and when none is attached and the reported state is another one: it
    neither records an error nor returns. *)
Theorem C4_sourceless_has_nothing :
  (forall (dc : bool) (ops : list Op) (w' : World),
     dc = true \/ preconditions_met dc ops HTMLVideoElement_new ->
     run dc ops HTMLVideoElement_new = Done tt w' ->
     media_source_ (this w') = None ->
     ready_state (this w') = HAVE_NOTHING) /\
  (forall (w : World) (new : MediaReadyState),
     (media_source_ (this w) <> None /\ new = HAVE_NOTHING) \/
     (media_source_ (this w) = None /\ new <> HAVE_NOTHING) ->
     OnReadyStateChanged true new w = Aborted).
Proof.
  split.
  - intros dc ops w' Hpre Hrun.
    apply (@run_keeps_sourceless_has_nothing dc ops
             HTMLVideoElement_new w' Hpre); [|exact Hrun].
    intros _. reflexivity.
  - intros w new H. open_world w. unfold_methods. cbn in *.
    destruct H as [[Hms ->] | [-> Hnew]].
    + destruct ms; [reflexivity | congruence].
    + destruct new; solve [congruence | reflexivity].
Qed.

(** Every operation other than a [SetVolume] out of range keeps the volume
    within range. *)
Lemma step_keeps_volume_in_range (dc : bool) (op : Op) (w w' : World) :
  is_SetVolume_out_of_range op = false ->
  volume_in_range (volume_ (this w)) = true ->
  step dc op w = Done tt w' ->
  volume_in_range (volume_ (this w')) = true.
Proof.
  intros Hop Hvol H. apply step_element in H.
  destruct (Load_world_members w) as (_ & HLoad & _).
  destruct op; cbn in H, Hop;
    repeat match type of H with
           | _ /\ _ => destruct H as [H _]
           | _ \/ _ => destruct H as [H | H]
           | exists _, _ => destruct H as [? H]
           end;
    rewrite H;
    try match goal with
        | |- context [if ?c then _ else _] => destruct c
        end;
    unfold record_error;
    try destruct (error (this w)); cbn; rewrite ?HLoad; try exact Hvol.
  all: now apply negb_false_iff in Hop.
Qed.

(** C9 (as amended).  A fresh element has volume 1.0 and is not muted.
    [SetVolume] stores its argument as it is, so the stored volume lies
    within 0.0 .. 1.0 after every sequence of public operations whose
    [SetVolume] calls all pass a volume within 0.0 .. 1.0. *)
Theorem C9_volume_in_range (dc : bool) :
  volume_ (this HTMLVideoElement_new) = 1%float /\
  is_muted_ (this HTMLVideoElement_new) = false /\
  (forall volume w w',
     SetVolume volume w = Done tt w' -> volume_ (this w') = volume) /\
  (forall (ops : list Op) (w' : World),
     Forall (fun op => is_SetVolume_out_of_range op = false) ops ->
     run dc ops HTMLVideoElement_new = Done tt w' ->
     volume_in_range (volume_ (this w')) = true).
Proof.
  split; [reflexivity|]. split; [reflexivity|]. split.
  - intros volume w w' H.
    apply (step_element dc (Call_SetVolume volume)) in H. now rewrite H.
  - intros ops w' Hops Hrun.
    refine (@run_invariant dc
              (fun e => volume_in_range (volume_ e) = true)
              (fun op => is_SetVolume_out_of_range op = false)
              _ ops HTMLVideoElement_new w' Hops _ Hrun).
    + intros op w w1. apply step_keeps_volume_in_range.
    + reflexivity.
Qed.

End Properties.

(* ------------------------------------------------------------------ *)
(** ** Further properties of the element *)

Section MoreProperties.

Context {collab : Collaborators}.

(** *** The events of the two callbacks *)

(** A status callback that returns has scheduled [status_events]. *)
Lemma OnPipelineStatusChanged_events
    (dc : bool) (s : PipelineStatus.t) (w w' : World) :
  OnPipelineStatusChanged dc s w = Done tt w' ->
  scheduled w' = scheduled w ++ status_events (pipeline_status_ (this w)) s.
Proof.
  open_world w. unfold_methods. unfold status_events, is_seeking. cbn.
  destruct dc, s, ps, err; cbn; intros H;
    solve [discriminate H
          | injection H as <-; cbn; normalise_traces; reflexivity].
Qed.

(** A ready-state callback that returns has scheduled nothing when the state
    is the stored one, and [spec_ready_state_events] otherwise. *)
Lemma OnReadyStateChanged_events
    (dc : bool) (r : MediaReadyState) (w w' : World) :
  OnReadyStateChanged dc r w = Done tt w' ->
  scheduled w' =
  scheduled w ++
  (if rs_eq (ready_state (this w)) r then []
   else spec_ready_state_events (ready_state (this w)) r).
Proof.
  open_world w. unfold_methods. cbn.
  destruct dc, ms as [m|], rs, r; cbn; intros H;
    solve [discriminate H
          | injection H as <-; cbn; normalise_traces; reflexivity].
Qed.

(** X1.  [SetMediaKeys] without media source resolves and changes nothing
    when no keys are given, and is rejected with InvalidStateError, again
    changing nothing, when keys are given.  With a media source it resolves,
    hands the keys' CDM (or none) to the controller in one call, and stores
    the keys: the stored keys are then the given ones, with the media source
    and the scheduled events as before. *)
Theorem SetMediaKeys_outcomes (keys : option MediaKeys) (w : World) :
  (media_source_ (this w) = None -> keys = None ->
   SetMediaKeys keys w = Done Resolved w) /\
  (media_source_ (this w) = None -> keys <> None ->
   SetMediaKeys keys w =
   Done (Rejected
           (DOMException InvalidStateError
              "Cannot set MediaKeys until after setting source")) w) /\
  (forall ms,
     media_source_ (this w) = Some ms ->
     SetMediaKeys keys w =
     Done Resolved
       (updates (set_media_keys keys)
          (sends [Controller_SetCdm ms (option_map GetCdm keys)] w)) /\
     exists w',
       SetMediaKeys keys w = Done Resolved w' /\
       media_keys (this w') = keys /\
       calls w' =
       calls w ++ [Controller_SetCdm ms (option_map GetCdm keys)] /\
       scheduled w' = scheduled w /\
       media_source_ (this w') = Some ms).
Proof.
  open_world w. unfold_methods. unfold_vocabulary. cbn.
  split; [|split].
  - intros -> ->. reflexivity.
  - intros -> Hkeys. destruct keys; [reflexivity | congruence].
  - intros m ->.
    destruct keys; (split; [reflexivity|]); eexists;
      (split; [reflexivity|]); repeat split; reflexivity.
Qed.

(** X2.  The events of a status callback agree with what [Paused()],
    [Seeking()] and [Ended()] answer afterwards: after Pause the element is
    paused, after Play or Playing it is neither paused, seeking nor ended,
    after Seeking it is seeking, after Seeked it is not, after Ended it is
    ended and paused, and after Emptied it is none of the three. *)
Theorem status_events_agree_with_getters
    (dc : bool) (s : PipelineStatus.t) (w w' : World) :
  OnPipelineStatusChanged dc s w = Done tt w' ->
  exists evs,
    scheduled w' = scheduled w ++ evs /\
    (In EventType.Pause evs -> Paused w' = Done true w') /\
    (In EventType.Play evs \/ In EventType.Playing evs ->
     Paused w' = Done false w' /\ Seeking w' = Done false w' /\
     Ended w' = Done false w') /\
    (In EventType.Seeking evs -> Seeking w' = Done true w') /\
    (In EventType.Seeked evs -> Seeking w' = Done false w') /\
    (In EventType.Ended evs ->
     Ended w' = Done true w' /\ Paused w' = Done true w') /\
    (In EventType.Emptied evs ->
     Paused w' = Done false w' /\ Seeking w' = Done false w' /\
     Ended w' = Done false w').
Proof.
  intros H. exists (status_events (pipeline_status_ (this w)) s).
  split; [eapply OnPipelineStatusChanged_events; exact H|].
  apply OnPipelineStatusChanged_element in H. destruct H as [He _].
  destruct w' as [e' ev' cl']. cbn in He. subst e'.
  unfold Paused, Seeking, Ended, bind, self, ret. cbn.
  destruct s, (pipeline_status_ (this w)); cbn;
    repeat split; intros;
    solve [reflexivity | exfalso; cbn in *; intuition discriminate].
Qed.

(** X3.  A ready state reported again is ignored: once a report of [r] has
    returned, a second report of [r] returns and leaves the world exactly as
    it was, scheduling nothing.  The first report itself leaves the world
    alone when [r] was already stored, and otherwise ends its events with
    ReadyStateChange. *)
Theorem ready_state_report_is_idempotent
    (dc : bool) (r : MediaReadyState) (w w1 : World) :
  OnReadyStateChanged dc r w = Done tt w1 ->
  OnReadyStateChanged dc r w1 = Done tt w1 /\
  (ready_state (this w) = r -> w1 = w) /\
  (ready_state (this w) <> r ->
   exists before,
     scheduled w1 = scheduled w ++ before ++ [EventType.ReadyStateChange]).
Proof.
  open_world w. unfold_methods. cbn.
  destruct dc, ms as [m|], rs, r; cbn; intros H;
    try discriminate H; injection H as <-; cbn;
    (split; [reflexivity|]);
    (split; [intros Heq; solve [reflexivity | discriminate Heq]|]);
    intros Hneq; try congruence;
    match goal with
    | |- exists before, ?l = ?ev ++ _ =>
        normalise_traces;
        match goal with
        | |- exists before, ?ev ++ ?evs = _ =>
            exists (removelast evs); reflexivity
        end
    end.
Qed.

(** X4.  What a ready-state callback schedules follows the direction of the
    change.  It schedules at most four events.  Waiting is scheduled only
    when the state goes down, and then with ReadyStateChange alone;
    LoadedMetaData, LoadedData and CanPlay are scheduled only when it goes
    up.  A fall to HAVE_NOTHING schedules ReadyStateChange and nothing
    else. *)
Theorem ready_state_events_follow_the_direction
    (dc : bool) (r : MediaReadyState) (w w' : World) :
  OnReadyStateChanged dc r w = Done tt w' ->
  exists evs,
    scheduled w' = scheduled w ++ evs /\
    List.length evs <= 4 /\
    (In EventType.Waiting evs ->
     (ready_state_value r < ready_state_value (ready_state (this w)))%Z /\
     evs = [EventType.Waiting; EventType.ReadyStateChange]) /\
    (In EventType.LoadedMetaData evs \/ In EventType.LoadedData evs \/
     In EventType.CanPlay evs ->
     (ready_state_value (ready_state (this w)) < ready_state_value r)%Z) /\
    (r = HAVE_NOTHING -> ready_state (this w) <> HAVE_NOTHING ->
     evs = [EventType.ReadyStateChange]).
Proof.
  intros H. eexists. split; [eapply OnReadyStateChanged_events; exact H|].
  clear H. destruct (ready_state (this w)), r; cbn;
    (split; [lia|]);
    (split; [intros Hin; solve [split; [lia | reflexivity]
                               | exfalso; intuition discriminate]|]);
    (split; [intros Hin; solve [lia | exfalso; intuition discriminate]|]);
    intros Hr Hold; solve [reflexivity | congruence].
Qed.

(** X5.  Along a path that only goes up, or only goes down without ending at
    HAVE_NOTHING, the threshold events do not depend on how the pipeline
    splits its reports: reporting [mid] and then [new] leaves the members
    that reporting [new] at once leaves, and schedules the same
    LoadedMetaData, LoadedData, CanPlay and Waiting events in the same order
    (with one more ReadyStateChange in between). *)
Theorem threshold_events_do_not_depend_on_the_path
    (dc : bool) (mid new : MediaReadyState) (w w1 w2 w3 : World) :
  (ready_state_value (ready_state (this w)) <= ready_state_value mid
   <= ready_state_value new)%Z \/
  ((ready_state_value new <= ready_state_value mid
    <= ready_state_value (ready_state (this w)))%Z /\
   new <> HAVE_NOTHING) ->
  OnReadyStateChanged dc mid w = Done tt w1 ->
  OnReadyStateChanged dc new w1 = Done tt w2 ->
  OnReadyStateChanged dc new w = Done tt w3 ->
  this w2 = this w3 /\
  exists evs2 evs3,
    scheduled w2 = scheduled w ++ evs2 /\
    scheduled w3 = scheduled w ++ evs3 /\
    filter is_threshold_event evs2 = filter is_threshold_event evs3.
Proof.
  intros Hpath H1 H2 H3.
  pose proof (OnReadyStateChanged_events _ _ _ H1) as E1.
  pose proof (OnReadyStateChanged_events _ _ _ H2) as E2.
  pose proof (OnReadyStateChanged_events _ _ _ H3) as E3.
  apply OnReadyStateChanged_element in H1, H2, H3.
  destruct H1 as (T1 & _), H2 as (T2 & _), H3 as (T3 & _).
  split.
  - rewrite T2, T3, T1. destruct (this w); reflexivity.
  - rewrite T1 in E2. cbn [ready_state set_ready_state] in E2.
    rewrite E1, <- app_assoc in E2.
    eexists. eexists. split; [exact E2|]. split; [exact E3|].
    clear - Hpath.
    destruct (ready_state (this w)), mid, new; cbn in Hpath |- *;
      solve [reflexivity
            | exfalso; destruct Hpath as [Hup | [Hdown Hnew]];
              solve [lia | congruence]].
Qed.

(** *** The traces after one operation *)

Lemma Load_world_traces (w : World) :
  scheduled (Load_world w) =
  scheduled w ++
  (if is_null (media_source_ (this w)) then [] else unload_events (this w)) /\
  calls (Load_world w) =
  calls w ++
  match media_source_ (this w) with
  | Some ms => [CloseMediaSource ms]
  | None => []
  end.
Proof.
  open_world w. unfold_vocabulary. cbn.
  destruct ms; cbn; rewrite ?app_nil_r; split; reflexivity.
Qed.

(** The calls an operation that returns has made on the collaborators. *)
Lemma step_calls (dc : bool) (op : Op) (w w' : World) :
  step dc op w = Done tt w' ->
  calls w' =
  match op with
  | Call_SetMediaKeys keys =>
      calls w ++
      match media_source_ (this w) with
      | Some ms => [Controller_SetCdm ms (option_map GetCdm keys)]
      | None => []
      end
  | Call_Load => calls (Load_world w)
  | Call_SetSource find src =>
      calls (Load_world w) ++
      (if empty src then []
       else match find src with
            | Some ms => attach_calls ms (this (Load_world w))
            | None => []
            end)
  | Call_SetCurrentTime time =>
      calls w ++
      match media_source_ (this w) with
      | Some ms => [PipelineManager_SetCurrentTime ms time]
      | None => []
      end
  | Call_SetPlaybackRate rate =>
      calls w ++
      match media_source_ (this w) with
      | Some ms => [PipelineManager_SetPlaybackRate ms rate]
      | None => []
      end
  | Call_SetMuted muted =>
      calls w ++
      match media_source_ (this w) with
      | Some ms =>
          [Controller_SetVolume ms
             (if muted then 0%float else volume_ (this w))]
      | None => []
      end
  | Call_SetVolume volume =>
      calls w ++
      match media_source_ (this w) with
      | Some ms =>
          [Controller_SetVolume ms
             (if is_muted_ (this w) then 0%float else volume)]
      | None => []
      end
  | Call_Play =>
      calls w ++
      match media_source_ (this w) with
      | Some ms => [PipelineManager_Play ms]
      | None => []
      end
  | Call_Pause =>
      calls w ++
      match media_source_ (this w) with
      | Some ms => [PipelineManager_Pause ms]
      | None => []
      end
  | _ => calls w
  end.
Proof.
  destruct op; cbn [step]; intros H.
  - now apply OnReadyStateChanged_element in H.
  - now apply OnPipelineStatusChanged_element in H.
  - open_world w. unfold_methods. cbn in *.
    destruct err; injection H as <-; reflexivity.
  - open_world w. unfold_methods. cbn in *.
    destruct keys, ms; cbn in H; injection H as <-; cbn;
      rewrite ?app_nil_r; reflexivity.
  - rewrite Load_returns in H. injection H as <-. reflexivity.
  - unfold discard, bind in H. rewrite SetSource_returns in H.
    destruct (empty src); [|destruct (FindMediaSource src)];
      injection H as <-; cbn; rewrite ?app_nil_r; reflexivity.
  - open_world w. unfold_methods. cbn in *.
    destruct ms; injection H as <-; cbn; rewrite ?app_nil_r; reflexivity.
  - open_world w. unfold_methods. cbn in *.
    destruct ms; injection H as <-; cbn; rewrite ?app_nil_r; reflexivity.
  - open_world w. unfold_methods. cbn in *.
    destruct ms; injection H as <-; cbn; rewrite ?app_nil_r; reflexivity.
  - open_world w. unfold_methods. cbn in *.
    destruct ms; injection H as <-; cbn; rewrite ?app_nil_r; reflexivity.
  - open_world w. unfold_methods. cbn in *.
    destruct ms; injection H as <-; cbn; rewrite ?app_nil_r; reflexivity.
  - open_world w. unfold_methods. cbn in *.
    destruct ms; injection H as <-; cbn; rewrite ?app_nil_r; reflexivity.
  - open_world w. unfold_methods. cbn in *.
    injection H as <-. reflexivity.
  - unfold assign in H. injection H as <-. reflexivity.
  - unfold assign in H. injection H as <-. reflexivity.
Qed.

(** The events an operation that returns has scheduled. *)
Lemma step_events (dc : bool) (op : Op) (w w' : World) :
  step dc op w = Done tt w' ->
  scheduled w' =
  scheduled w ++
  match op with
  | Call_OnReadyStateChanged r =>
      if rs_eq (ready_state (this w)) r then []
      else spec_ready_state_events (ready_state (this w)) r
  | Call_OnPipelineStatusChanged s =>
      status_events (pipeline_status_ (this w)) s
  | Call_OnMediaError _ _ => [EventType.Error]
  | Call_Load | Call_SetSource _ _ =>
      if is_null (media_source_ (this w)) then []
      else unload_events (this w)
  | _ => []
  end.
Proof.
  destruct op; cbn [step]; intros H.
  - now apply OnReadyStateChanged_events in H.
  - now apply OnPipelineStatusChanged_events in H.
  - open_world w. unfold_methods. cbn in *.
    destruct err; injection H as <-; reflexivity.
  - open_world w. unfold_methods. cbn in *.
    destruct keys, ms; cbn in H; injection H as <-; cbn;
      rewrite ?app_nil_r; reflexivity.
  - rewrite Load_returns in H. injection H as <-.
    apply Load_world_traces.
  - unfold discard, bind in H. rewrite SetSource_returns in H.
    destruct (empty src); [|destruct (FindMediaSource src)];
      injection H as <-; apply Load_world_traces.
  - open_world w. unfold_methods. cbn in *.
    destruct ms; injection H as <-; cbn; rewrite ?app_nil_r; reflexivity.
  - open_world w. unfold_methods. cbn in *.
    destruct ms; injection H as <-; cbn; rewrite ?app_nil_r; reflexivity.
  - open_world w. unfold_methods. cbn in *.
    destruct ms; injection H as <-; cbn; rewrite ?app_nil_r; reflexivity.
  - open_world w. unfold_methods. cbn in *.
    destruct ms; injection H as <-; cbn; rewrite ?app_nil_r; reflexivity.
  - open_world w. unfold_methods. cbn in *.
    destruct ms; injection H as <-; cbn; rewrite ?app_nil_r; reflexivity.
  - open_world w. unfold_methods. cbn in *.
    destruct ms; injection H as <-; cbn; rewrite ?app_nil_r; reflexivity.
  - open_world w. unfold_methods. cbn in *.
    injection H as <-. cbn. rewrite app_nil_r. reflexivity.
  - unfold assign in H. injection H as <-. cbn.
    rewrite app_nil_r. reflexivity.
  - unfold assign in H. injection H as <-. cbn.
    rewrite app_nil_r. reflexivity.
Qed.

(** A property of the world that every operation keeps holds after every
    sequence of operations that returns. *)
Lemma run_world_invariant (dc : bool) (P : World -> Prop) :
  (forall op w w', P w -> step dc op w = Done tt w' -> P w') ->
  forall ops w w', P w -> run dc ops w = Done tt w' -> P w'.
Proof.
  intros Hstep ops. induction ops as [|op rest IH]; intros w w' HP Hrun.
  - cbn in Hrun. injection Hrun as <-. exact HP.
  - cbn [run] in Hrun. unfold bind in Hrun.
    destruct (step dc op w) as [[] w1|] eqn:E; [|discriminate Hrun].
    apply (IH w1 w'); [|exact Hrun].
    apply (Hstep op w w1 HP E).
Qed.

(** *** The volume the controller has *)

Lemma last_volume_call_app (l l' : list Call) :
  last_volume_call (l ++ l') =
  match last_volume_call l' with
  | Some found => Some found
  | None => last_volume_call l
  end.
Proof.
  induction l as [|c l IH]; cbn.
  - destruct (last_volume_call l'); reflexivity.
  - rewrite IH. destruct (last_volume_call l'); reflexivity.
Qed.

Lemma step_keeps_volume_in_sync (dc : bool) (op : Op) (w w' : World) :
  volume_in_sync w -> step dc op w = Done tt w' -> volume_in_sync w'.
Proof.
  intros Hinv H.
  pose proof (step_element _ _ _ H) as He.
  pose proof (step_calls _ _ _ H) as Hc. clear H.
  destruct w' as [e' ev' cl']. cbn [this calls] in He, Hc.
  unfold volume_in_sync, pushed_volume in *. cbn [this calls].
  intros m Hm. open_world w. cbn in Hinv.
  destruct ms as [m0|]; [specialize (Hinv m0 eq_refl) | clear Hinv];
    destruct op; cbn in He, Hc;
    repeat match type of He with
           | _ /\ _ => destruct He as [He _]
           | _ \/ _ => destruct He as [He | He]
           | exists _, _ => destruct He as [? He]
           end;
    subst e' cl'; unfold_vocabulary; cbn in Hm |- *;
    try match goal with
        | s : PipelineStatus.t |- _ => destruct s, ps; cbn in Hm |- *
        end;
    try destruct err; cbn in Hm |- *;
    try destruct (empty src); cbn in Hm |- *;
    try destruct (FindMediaSource src); cbn in Hm |- *;
    try discriminate Hm;
    rewrite ?last_volume_call_app; cbn;
    try (injection Hm as <-);
    try solve [exact Hinv | reflexivity].
  all: destruct ap; try destruct wp; reflexivity.
Qed.

(** X6.  The controller's volume follows the element: in every world
    reached from a fresh element by public operations that has a media
    source attached, the last volume handed to the controller was handed
    through that media source and is muted ? 0 : volume for the muted flag
    and the volume the element now stores. *)
Theorem controller_volume_follows_element
    (dc : bool) (ops : list Op) (w' : World) (ms : MediaSource) :
  run dc ops HTMLVideoElement_new = Done tt w' ->
  media_source_ (this w') = Some ms ->
  last_volume_call (calls w') =
  Some (ms, if is_muted_ (this w') then 0%float else volume_ (this w')).
Proof.
  intros Hrun.
  apply (@run_world_invariant dc volume_in_sync
           (@step_keeps_volume_in_sync dc) ops
           HTMLVideoElement_new w'); [|exact Hrun].
  intros m Hm. discriminate Hm.
Qed.

(** X7.  An element without media source makes no call on a media source
    object, on its controller or on its pipeline manager.  None of the
    operations that change the element (the callbacks, [Load], the setters,
    [Play], [Pause], [SetMediaKeys], [AddTextTrack], the writes of autoplay
    and loop) makes one, nor does a [SetSource] whose url is empty or not
    resolved; a [SetSource] whose url is resolved makes calls on the media
    source found only: it opens it, sets its volume, and tells it to play
    when autoplay or the will-play latch is set.  What [Buffered()],
    [Seekable()], [CurrentTime()], [Duration()] and [PlaybackRate()] answer
    does not depend on what the collaborators would answer.  The static
    functions [MediaSource::FindMediaSource], which [SetSource] asks about a
    non-empty url, and [MediaSource::IsTypeSupported], which [CanPlayType]
    asks, are not calls on a media source object and are not covered. *)
Theorem sourceless_element_makes_no_call (w : World) :
  media_source_ (this w) = None ->
  (forall dc op w',
     (forall find src,
        op = Call_SetSource find src ->
        src = EmptyString \/ find src = None) ->
     step dc op w = Done tt w' ->
     calls w' = calls w) /\
  (forall dc find src result w',
     SetSource dc find src w = Done result w' ->
     (calls w' = calls w /\ (src = EmptyString \/ find src = None)) \/
     exists ms,
       src <> EmptyString /\ find src = Some ms /\
       calls w' =
       calls w ++
       [OpenMediaSource ms;
        Controller_SetVolume ms
          (if is_muted_ (this w) then 0%float else volume_ (this w))] ++
       (if autoplay (this w) || will_play_ (this w)
        then [PipelineManager_Play ms] else [])) /\
  (forall readings1 readings2 : Readings,
     Buffered (readings := readings1) w =
     Buffered (readings := readings2) w /\
     Seekable (readings := readings1) w =
     Seekable (readings := readings2) w /\
     CurrentTime (readings := readings1) w =
     CurrentTime (readings := readings2) w /\
     Duration (readings := readings1) w =
     Duration (readings := readings2) w /\
     PlaybackRate (readings := readings1) w =
     PlaybackRate (readings := readings2) w).
Proof.
  intros Hnone. split; [|split].
  - intros dc op w' Hop H. apply step_calls in H. rewrite H. clear H.
    destruct (Load_world_traces w) as [_ HLoad].
    destruct op; rewrite ?HLoad, ?Hnone, ?app_nil_r; try reflexivity.
    destruct (Hop _ _ eq_refl) as [-> | ->]; cbn;
      [|destruct (empty src)]; rewrite app_nil_r; reflexivity.
  - intros dc find src result w' H. rewrite SetSource_returns in H.
    open_world w. cbn in Hnone. subst ms. unfold_vocabulary. cbn in H.
    destruct src as [|c src]; cbn in H.
    + injection H as _ <-. left. split; [reflexivity | left; reflexivity].
    + destruct (find (String c src)) as [m|] eqn:Hfind.
      * injection H as _ <-. right. exists m.
        split; [discriminate|]. split; [reflexivity|]. reflexivity.
      * injection H as _ <-. left.
        split; [reflexivity | right; reflexivity].
  - intros readings1 readings2.
    unfold Buffered, Seekable, CurrentTime, Duration, PlaybackRate,
      bind, self, ret.
    rewrite Hnone. repeat split; reflexivity.
Qed.

(** X8.  The will-play latch is honoured once.  On an element without media
    source and with autoplay off, [Play()] followed by a [SetSource] that
    resolves and by a second [SetSource] that resolves returns, tells the
    pipeline to play exactly once (the first source), leaves the second
    source attached and the latch cleared. *)
Theorem will_play_latch_is_honoured_once
    (dc : bool) (find1 find2 : string -> option MediaSource)
    (src1 src2 : string) (ms1 ms2 : MediaSource) (w : World) :
  media_source_ (this w) = None ->
  autoplay (this w) = false ->
  src1 <> EmptyString -> find1 src1 = Some ms1 ->
  src2 <> EmptyString -> find2 src2 = Some ms2 ->
  exists w',
    bind Play
      (fun _ => bind (SetSource dc find1 src1)
                  (fun _ => SetSource dc find2 src2)) w =
    Done (Returned tt) w' /\
    calls w' =
    calls w ++
    [OpenMediaSource ms1;
     Controller_SetVolume ms1
       (if is_muted_ (this w) then 0%float else volume_ (this w));
     PipelineManager_Play ms1;
     CloseMediaSource ms1;
     OpenMediaSource ms2;
     Controller_SetVolume ms2
       (if is_muted_ (this w) then 0%float else volume_ (this w))] /\
    count_play (calls w') = S (count_play (calls w)) /\
    media_source_ (this w') = Some ms2 /\
    will_play_ (this w') = false.
Proof.
  intros Hnone Hap Hsrc1 Hfind1 Hsrc2 Hfind2.
  open_world w. cbn in Hnone, Hap. subst ms ap.
  unfold bind at 1. unfold Play, bind, self, assign. cbn -[SetSource].
  rewrite SetSource_returns, (empty_neq Hsrc1), Hfind1.
  unfold_vocabulary. cbn -[SetSource].
  rewrite SetSource_returns, (empty_neq Hsrc2), Hfind2.
  unfold_vocabulary. cbn.
  eexists. split; [reflexivity|]. cbn.
  split; [normalise_traces; reflexivity|].
  split; [|split; reflexivity].
  rewrite !count_play_app. cbn. lia.
Qed.

(** X9.  The Error event and the error record go together: whenever a
    public operation schedules Error, an error is recorded afterwards, and
    whenever an operation leaves an error where there was none, it has
    scheduled Error. *)
Theorem error_event_goes_with_error_record
    (dc : bool) (op : Op) (w w' : World) :
  step dc op w = Done tt w' ->
  exists evs,
    scheduled w' = scheduled w ++ evs /\
    (In EventType.Error evs -> error (this w') <> None) /\
    (error (this w) = None -> error (this w') <> None ->
     In EventType.Error evs).
Proof.
  intros H.
  pose proof (step_element _ _ _ H) as He.
  pose proof (step_events _ _ _ H) as Hev. clear H.
  eexists. split; [exact Hev|]. clear Hev.
  destruct w' as [e' ev' cl']. cbn [this] in *.
  pose proof (Load_world_error w) as HLoad.
  destruct (Load_world w) as [e1 ev1 cl1]. cbn [this] in *.
  open_world w.
  destruct op; cbn in He;
    repeat match type of He with
           | _ /\ _ => destruct He as [He _]
           | _ \/ _ => destruct He as [He | He]
           | exists _, _ => destruct He as [? He]
           end;
    subst e'; unfold_vocabulary; cbn;
    try rewrite HLoad;
    try solve [split; [intros [] | intros Hnone Hsome; congruence]].
  - destruct rs, new_ready_state; cbn;
      (split; [intros Hin; exfalso; intuition discriminate
              | intros Hnone Hsome; congruence]).
  - destruct status, ps, err; cbn;
      (split; [intros Hin; solve [discriminate
                                 | exfalso; intuition discriminate]
              | intros Hnone Hsome; solve [congruence | auto]]).
  - destruct err; cbn;
      (split; [intros _; discriminate | intros _ _; auto]).
  - destruct ms; unfold unload_events; cbn;
      [destruct rs, ps; cbn|];
      (split; [intros Hin; exfalso; intuition discriminate
              | intros _ Hsome; congruence]).
  - destruct ms; unfold unload_events; cbn;
      [destruct rs, ps; cbn|];
      (split; [intros Hin; exfalso; intuition discriminate
              | intros _ Hsome; congruence]).
Qed.

(** X10.  [Load()] and [SetSource] never fail an assertion, in a debug build
    or a release build, whatever the element.  [Load()] schedules at most
    ReadyStateChange and then Emptied: the first exactly when a media source
    was attached with a ready state other than HAVE_NOTHING, the second
    exactly when one was attached with a status other than Initializing.
    [SetSource] schedules what [Load()] schedules and nothing more. *)
Theorem Load_and_SetSource_always_return
    (dc : bool) (find : string -> option MediaSource) (src : string)
    (w : World) :
  exists w1 evs result w2,
    Load dc w = Done tt w1 /\
    scheduled w1 = scheduled w ++ evs /\
    (evs = [] \/ evs = [EventType.ReadyStateChange] \/
     evs = [EventType.Emptied] \/
     evs = [EventType.ReadyStateChange; EventType.Emptied]) /\
    (In EventType.ReadyStateChange evs <->
     media_source_ (this w) <> None /\
     ready_state (this w) <> HAVE_NOTHING) /\
    (In EventType.Emptied evs <->
     media_source_ (this w) <> None /\
     pipeline_status_ (this w) <> PipelineStatus.Initializing) /\
    SetSource dc find src w = Done result w2 /\
    scheduled w2 = scheduled w1.
Proof.
  exists (Load_world w).
  exists (if is_null (media_source_ (this w)) then []
          else unload_events (this w)).
  rewrite SetSource_returns, Load_returns.
  assert (exists result w2,
            (if empty src then Done (Returned tt) (Load_world w)
             else match find src with
                  | Some ms =>
                      Done (Returned tt)
                        (sends (attach_calls ms (this (Load_world w)))
                           (updates (set_media_source_ (Some ms))
                              (Load_world w)))
                  | None =>
                      Done (Threw (DOMException NotSupportedError
                                     "Unknown MediaSource URL given."))
                        (Load_world w)
                  end) = Done result w2 /\
            scheduled w2 = scheduled (Load_world w))
    as (result & w2 & HSet & Hsame).
  { destruct (empty src); [|destruct (find src)];
      eexists; eexists; split; reflexivity. }
  exists result, w2.
  split; [reflexivity|]. split; [apply Load_world_traces|].
  split; [|split; [|split; [|split; assumption]]].
  - open_world w. unfold unload_events. cbn.
    destruct ms, rs, ps; cbn; auto.
  - open_world w. unfold unload_events. cbn.
    destruct ms, rs, ps; cbn; split;
      solve [intuition congruence | intuition discriminate].
  - open_world w. unfold unload_events. cbn.
    destruct ms, rs, ps; cbn; split;
      solve [intuition congruence | intuition discriminate].
Qed.

(** *** Text tracks and the cue-checking loop *)

Lemma step_text_tracks (dc : bool) (op : Op) (w w' : World) :
  step dc op w = Done tt w' ->
  text_tracks (this w') =
  text_tracks (this w) ++
  match op with
  | Call_AddTextTrack kind label language =>
      [mkTextTrack kind (value_or label EmptyString)
         (value_or language EmptyString)]
  | _ => []
  end.
Proof.
  intros H. destruct op;
    try (apply step_element in H; cbn in H;
         repeat match type of H with
                | _ /\ _ => destruct H as [H _]
                | _ \/ _ => destruct H as [H | H]
                end;
         rewrite H, app_nil_r;
         try match goal with
             | |- context [if ?c then _ else _] => destruct c
             end;
         unfold record_error, Load_world, unloaded, updates;
         try destruct (error (this w));
         try destruct (media_source_ (this w));
         reflexivity).
  open_world w. unfold_methods. cbn in *. injection H as <-. reflexivity.
Qed.

(** X11.  Text tracks are only ever added.  After any sequence of public
    operations the element has the tracks it had, in the same order,
    followed by one track for each [AddTextTrack] of the sequence; and
    [CheckForCueChange] then asks each of the old tracks and then each of
    the added ones. *)
Theorem text_tracks_only_grow (dc : bool) (ops : list Op) (w w' : World) :
  run dc ops w = Done tt w' ->
  exists added,
    text_tracks (this w') = text_tracks (this w) ++ added /\
    List.length added = count_AddTextTrack ops /\
    forall newTime oldTime,
      CheckForCueChange newTime oldTime (this w') =
      CheckForCueChange newTime oldTime (this w) ++
      map (fun track => mkCueCheck track newTime oldTime) added.
Proof.
  intros Hrun.
  assert (exists added,
            text_tracks (this w') = text_tracks (this w) ++ added /\
            List.length added = count_AddTextTrack ops)
    as (added & Htracks & Hlength).
  { revert w Hrun. induction ops as [|op rest IH]; intros w Hrun.
    - cbn in Hrun. injection Hrun as <-. exists [].
      split; [now rewrite app_nil_r | reflexivity].
    - cbn [run] in Hrun. unfold bind in Hrun.
      destruct (step dc op w) as [[] w1|] eqn:E; [|discriminate Hrun].
      destruct (IH w1 Hrun) as (added & Htracks & Hlength).
      apply step_text_tracks in E. rewrite E, <- app_assoc in Htracks.
      eexists. split; [exact Htracks|].
      rewrite length_app, Hlength. destruct op; reflexivity. }
  exists added. split; [exact Htracks|]. split; [exact Hlength|].
  intros newTime oldTime. unfold CheckForCueChange.
  rewrite Htracks. apply map_app.
Qed.

(** X12.  The cue-checking loop resumes where it stopped.  Iterations that
    do not see the status Playing make no call and keep [lastTime]; the
    next iteration that sees Playing asks every text track about the whole
    interval from the [lastTime] kept to the time it has read, and the loop
    goes on from that time.  A loop that never sees Playing makes no call
    at all. *)
Theorem cue_checks_resume_where_they_stopped
    (lastTime time : float) (e : HTMLVideoElement)
    (skipped rest : list (float * HTMLVideoElement)) :
  Forall (fun iteration =>
            pipeline_status_ (snd iteration) <> PipelineStatus.Playing)
    skipped ->
  ThreadMain lastTime skipped = ([], lastTime) /\
  (pipeline_status_ e = PipelineStatus.Playing ->
   ThreadMain lastTime (skipped ++ (time, e) :: rest) =
   (CheckForCueChange time lastTime e ++ fst (ThreadMain time rest),
    snd (ThreadMain time rest))).
Proof.
  unfold ThreadMain. intros Hskipped.
  induction Hskipped as [|[t0 e0] skipped Hhead _ IH]; cbn.
  - split; [reflexivity|]. intros ->. cbn.
    destruct (ThreadMain_loop time rest); reflexivity.
  - cbn in Hhead.
    destruct (PipelineStatus.eqb (pipeline_status_ e0)
                PipelineStatus.Playing) eqn:E; [|exact IH].
    apply PipelineStatus_eqb_eq in E. contradiction.
Qed.

(** *** Callbacks that come from an attached media source *)

Lemma step_keeps_following_the_pipeline
    (dc : bool) (op : Op) (w w' : World) :
  (is_callback op = true -> media_source_ (this w) <> None) ->
  follows_the_pipeline (this w) ->
  step dc op w = Done tt w' ->
  follows_the_pipeline (this w').
Proof.
  intros Hattached Hinv H. apply step_element in H.
  destruct w' as [e' ev' cl']. cbn [this] in *.
  unfold follows_the_pipeline in *. open_world w. cbn in Hinv, Hattached.
  destruct Hinv as [Hnone Herrored].
  destruct op; cbn in H, Hattached;
    repeat match type of H with
           | _ /\ _ => destruct H as [H _]
           | _ \/ _ => destruct H as [H | H]
           | exists _, _ => destruct H as [? H]
           end;
    subst e'; unfold_vocabulary; cbn;
    try solve [split; assumption].
  - specialize (Hattached eq_refl).
    split; [intros Hms; contradiction | assumption].
  - specialize (Hattached eq_refl).
    destruct status, ps, err; cbn;
      (split; [intros Hms; contradiction|]);
      solve [intros Hps; discriminate Hps
            | intros _; discriminate
            | assumption].
  - destruct err; cbn; (split; [assumption|]); intros _; discriminate.
  - destruct ms; cbn; (split; [auto|]).
    + intros Hps; discriminate Hps.
    + intros Hps. destruct (Hnone eq_refl) as [Hinit _]. congruence.
  - destruct ms; cbn.
    + split; [intros _; auto | intros Hps; discriminate Hps].
    + destruct (Hnone eq_refl) as [-> ->].
      split; [intros _; auto | intros Hps; discriminate Hps].
Qed.

(** X13.  When the pipeline's callbacks reach the element only while a
    media source is attached, every element reached from a fresh one by
    public operations follows the pipeline: without media source its status
    is Initializing and its ready state HAVE_NOTHING, so that [Paused()],
    [Seeking()] and [Ended()] answer false; and with the status Errored it
    has an error recorded. *)
Theorem element_follows_the_pipeline
    (dc : bool) (ops : list Op) (w' : World) :
  callbacks_while_attached dc ops HTMLVideoElement_new ->
  run dc ops HTMLVideoElement_new = Done tt w' ->
  (media_source_ (this w') = None ->
   pipeline_status_ (this w') = PipelineStatus.Initializing /\
   ready_state (this w') = HAVE_NOTHING /\
   Paused w' = Done false w' /\ Seeking w' = Done false w' /\
   Ended w' = Done false w') /\
  (pipeline_status_ (this w') = PipelineStatus.Errored ->
   error (this w') <> None).
Proof.
  intros Hattached Hrun.
  assert (follows_the_pipeline (this w')) as [Hnone Herrored].
  { assert (follows_the_pipeline (this HTMLVideoElement_new)) as Hnew
      by (split; [intros _; split; reflexivity
                 | intros Hps; discriminate Hps]).
    revert Hattached Hrun Hnew. generalize HTMLVideoElement_new.
    induction ops as [|op rest IH]; intros w Hattached Hrun Hinv.
    - cbn in Hrun. injection Hrun as <-. exact Hinv.
    - cbn [run] in Hrun. unfold bind in Hrun.
      destruct Hattached as [Hop Hrest].
      destruct (step dc op w) as [[] w1|] eqn:E; [|discriminate Hrun].
      apply (IH w1 Hrest Hrun).
      apply (@step_keeps_following_the_pipeline dc op w w1 Hop Hinv E). }
  split; [|exact Herrored].
  intros Hms. destruct (Hnone Hms) as [Hps Hrs].
  split; [exact Hps|]. split; [exact Hrs|].
  unfold Paused, Seeking, Ended, bind, self, ret. rewrite Hps.
  repeat split; reflexivity.
Qed.

(** *** When the callbacks abort *)

(** X18.  The callbacks abort in a debug build only, and exactly on the
    reports their assertions exclude.  A status report aborts exactly when
    it is Playing after SeekingPause, Ended or Errored, or Paused after
    SeekingPlay, Ended or Errored.  A ready-state report aborts exactly when
    a media source is attached and it reports HAVE_NOTHING, or none is
    attached and it reports another state, even when the state reported is
    the stored one.  [OnMediaError] never aborts, and in a release build
    every sequence of public operations returns. *)
Theorem callbacks_abort_exactly_when
    (dc : bool) (s : PipelineStatus.t) (r : MediaReadyState) (w : World) :
  (OnPipelineStatusChanged dc s w = Aborted <->
   dc = true /\
   ((s = PipelineStatus.Playing /\
     In (pipeline_status_ (this w))
        [PipelineStatus.SeekingPause; PipelineStatus.Ended;
         PipelineStatus.Errored]) \/
    (s = PipelineStatus.Paused /\
     In (pipeline_status_ (this w))
        [PipelineStatus.SeekingPlay; PipelineStatus.Ended;
         PipelineStatus.Errored]))) /\
  (OnReadyStateChanged dc r w = Aborted <->
   dc = true /\
   ((media_source_ (this w) <> None /\ r = HAVE_NOTHING) \/
    (media_source_ (this w) = None /\ r <> HAVE_NOTHING))) /\
  (forall source status, OnMediaError source status w <> Aborted) /\
  (forall ops, exists w', run false ops w = Done tt w').
Proof.
  split; [|split; [|split]].
  - open_world w. unfold_methods. cbn.
    destruct dc, s, ps, err; cbn; split;
      solve [intros H; discriminate H
            | intros _; split; [reflexivity|]; cbn; tauto
            | intros [Hdc Hcases]; try discriminate Hdc; exfalso;
              cbn in Hcases; intuition discriminate
            | reflexivity].
  - open_world w. unfold_methods. cbn.
    destruct dc, ms as [m|], rs, r; cbn; split;
      solve [intros H; discriminate H
            | intros _; split; [reflexivity|];
              solve [left; split; [discriminate | reflexivity]
                    | right; split; [reflexivity | discriminate]]
            | intros [Hdc Hcases]; try discriminate Hdc; exfalso;
              intuition (discriminate || congruence)
            | reflexivity].
  - intros source status. open_world w. unfold_methods. cbn.
    destruct err; discriminate.
  - intros ops. revert w. induction ops as [|op rest IH]; intros w.
    + exists w. reflexivity.
    + assert (exists w1, step false op w = Done tt w1) as [w1 Hstep].
      { destruct op; cbn [step].
        - open_world w. unfold_methods. cbn.
          destruct (rs_eq rs new_ready_state); cbn;
            [eexists; reflexivity|].
          repeat match goal with
                 | |- context [if ?c then _ else _] => destruct c; cbn
                 end; eexists; reflexivity.
        - open_world w. unfold_methods. cbn.
          destruct status, ps, err; cbn; eexists; reflexivity.
        - open_world w. unfold_methods. cbn.
          destruct err; eexists; reflexivity.
        - open_world w. unfold_methods. cbn.
          destruct keys, ms; cbn; eexists; reflexivity.
        - rewrite Load_returns. eexists; reflexivity.
        - unfold discard, bind. rewrite SetSource_returns.
          destruct (empty src); [|destruct (FindMediaSource src)];
            eexists; reflexivity.
        - open_world w. unfold_methods. cbn.
          destruct ms; eexists; reflexivity.
        - open_world w. unfold_methods. cbn.
          destruct ms; eexists; reflexivity.
        - open_world w. unfold_methods. cbn.
          destruct ms; eexists; reflexivity.
        - open_world w. unfold_methods. cbn.
          destruct ms; eexists; reflexivity.
        - open_world w. unfold_methods. cbn.
          destruct ms; eexists; reflexivity.
        - open_world w. unfold_methods. cbn.
          destruct ms; eexists; reflexivity.
        - open_world w. unfold_methods. cbn. eexists; reflexivity.
        - eexists; reflexivity.
        - eexists; reflexivity. }
      destruct (IH w1) as [w' Hrun].
      exists w'. cbn [run]. unfold bind. rewrite Hstep. exact Hrun.
Qed.

End MoreProperties.

(* ------------------------------------------------------------------ *)
(** ** Properties of the getters *)

Section GetterProperties.

Context {collab : Collaborators} {readings : Readings}.

(** X14.  After [Load()], and after a [SetSource] that throws or is given
    the empty url, the element answers as one without source, without
    asking the pipeline and without changing: the source is the empty
    string, the current time and the duration are 0, the playback rate is
    1, and nothing is buffered or seekable. *)
Theorem getters_after_unloading
    (dc : bool) (find : string -> option MediaSource) (src : string)
    (w w1 : World) :
  Load dc w = Done tt w1 \/
  (exists exception, SetSource dc find src w = Done (Threw exception) w1) \/
  SetSource dc find EmptyString w = Done (Returned tt) w1 ->
  GetMediaSource w1 = Done None w1 /\
  Source w1 = Done EmptyString w1 /\
  CurrentTime w1 = Done 0%float w1 /\
  Duration w1 = Done 0%float w1 /\
  PlaybackRate w1 = Done 1%float w1 /\
  Buffered w1 = Done [] w1 /\
  Seekable w1 = Done [] w1.
Proof.
  intros H.
  assert (media_source_ (this w1) = None) as Hnone.
  { destruct H as [H | [[exception H] | H]].
    - rewrite Load_returns in H. injection H as <-.
      apply Load_world_sourceless.
    - rewrite SetSource_returns in H.
      destruct (empty src); [discriminate H|].
      destruct (find src); [discriminate H|].
      injection H as _ <-. apply Load_world_sourceless.
    - rewrite SetSource_returns in H. cbn in H. injection H as <-.
      apply Load_world_sourceless. }
  unfold GetMediaSource, Source, CurrentTime, Duration, PlaybackRate,
    Buffered, Seekable, bind, self, ret.
  rewrite Hnone. repeat split; reflexivity.
Qed.

(** X15.  [Seekable()] changes nothing and answers at most one range.  A
    range it answers starts at 0 and ends at the duration of the attached
    media source, which is then not NaN; it answers none exactly when no
    media source is attached or the duration is NaN. *)
Theorem Seekable_ranges (w : World) :
  exists ranges,
    Seekable w = Done ranges w /\
    List.length ranges <= 1 /\
    (forall range,
       In range ranges ->
       range_start range = 0%float /\
       PrimFloat.is_nan (range_end range) = false /\
       exists ms,
         media_source_ (this w) = Some ms /\
         range_end range = MediaSource_GetDuration ms) /\
    (ranges = [] <->
     media_source_ (this w) = None \/
     exists ms,
       media_source_ (this w) = Some ms /\
       PrimFloat.is_nan (MediaSource_GetDuration ms) = true).
Proof.
  unfold Seekable, bind, self, ret. eexists. split; [reflexivity|].
  destruct (media_source_ (this w)) as [ms|]; cbn.
  - destruct (PrimFloat.is_nan (MediaSource_GetDuration ms)) eqn:E; cbn.
    + split; [lia|]. split; [intros range []|].
      split; [intros _; right; exists ms; auto | reflexivity].
    + split; [lia|]. split.
      * intros range [<- | []]. cbn.
        split; [reflexivity|]. split; [exact E|]. exists ms. auto.
      * split; [discriminate|].
        intros [Hnone | (ms' & Hms & Hnan)]; [discriminate Hnone|].
        injection Hms as <-. congruence.
  - split; [lia|]. split; [intros range []|].
    split; [auto | reflexivity].
Qed.

End GetterProperties.

(* ------------------------------------------------------------------ *)
(** ** Properties of the document *)

(** X16.  [DocumentElement()] answers the first child that is an element:
    the children before it are not elements.  It answers nothing exactly
    when no child is an element, as for a document without children. *)
Theorem DocumentElement_is_the_first_element
    (Node : Type) (is_element : Node -> bool) (child_nodes : list Node) :
  match Document.DocumentElement is_element child_nodes with
  | Some element =>
      is_element element = true /\
      exists before after,
        child_nodes = before ++ element :: after /\
        Forall (fun child => is_element child = false) before
  | None => Forall (fun child => is_element child = false) child_nodes
  end.
Proof.
  induction child_nodes as [|child rest IH]; cbn; [constructor|].
  destruct (is_element child) eqn:E.
  - split; [exact E|]. exists [], rest. split; [reflexivity | constructor].
  - destruct (Document.DocumentElement is_element rest) as [element|].
    + destruct IH as (He & before & after & -> & Hbefore).
      split; [exact He|]. exists (child :: before), after.
      split; [reflexivity | constructor; assumption].
    + constructor; assumption.
Qed.

(** X17.  The global document.  [CreateGlobalDocument] on an empty
    [instance_] registers the document it allocates; on a set one it aborts
    in a debug build and replaces the registered document in a release
    build.  Destroying a document clears [instance_] exactly when that
    document is the registered one: after creating [p], destroying it lets a
    debug build create another; and in a release build that has created [p]
    and then [q], destroying [p] leaves [q] registered. *)
Theorem global_document_lifecycle (p q : Document.Pointer) :
  p <> q ->
  (forall dc, Document.CreateGlobalDocument dc p None = Some (p, Some p)) /\
  Document.CreateGlobalDocument true q (Some p) = None /\
  Document.CreateGlobalDocument false q (Some p) = Some (q, Some q) /\
  Document.destroy p (Some p) = None /\
  Document.destroy p (Some q) = Some q /\
  Document.destroy p None = None /\
  Document.CreateGlobalDocument true q (Document.destroy p (Some p)) =
  Some (q, Some q).
Proof.
  intros Hpq. unfold Document.CreateGlobalDocument, Document.destroy.
  rewrite Nat.eqb_refl.
  assert (Nat.eqb q p = false) as -> by (apply Nat.eqb_neq; congruence).
  split; [intros dc; cbn; now rewrite andb_false_r|].
  repeat split; reflexivity.
Qed.

(* ------------------------------------------------------------------ *)
(** ** The properties on sample elements *)

#[local] Existing Instance sample_collaborators.


(** C2 on an element with a media source that goes from HAVE_NOTHING straight
    to HAVE_ENOUGH_DATA: three thresholds are crossed in one call. *)
Lemma C2_ready_state_transition_witness :
  attachment_ok (this attached_world) HAVE_ENOUGH_DATA /\
  HAVE_ENOUGH_DATA <> ready_state (this attached_world) /\
  OnReadyStateChanged true HAVE_ENOUGH_DATA attached_world =
  Done tt
    (updates (set_ready_state HAVE_ENOUGH_DATA)
       (emits [EventType.LoadedMetaData; EventType.LoadedData;
               EventType.CanPlay; EventType.ReadyStateChange]
          attached_world)) /\
  exists w',
    OnReadyStateChanged true HAVE_ENOUGH_DATA attached_world = Done tt w' /\
    ready_state (this attached_world) = HAVE_NOTHING /\
    ready_state (this w') = HAVE_ENOUGH_DATA /\
    scheduled w' =
    scheduled attached_world ++
    [EventType.LoadedMetaData; EventType.LoadedData; EventType.CanPlay;
     EventType.ReadyStateChange].
Proof.
  assert (H1 : attachment_ok (this attached_world) HAVE_ENOUGH_DATA)
    by (cbn; discriminate).
  assert (H2 : HAVE_ENOUGH_DATA <> ready_state (this attached_world))
    by (cbn; discriminate).
  split; [exact H1|]. split; [exact H2|].
  destruct (C2_ready_state_transition true attached_world H1 H2)
    as (Hreturn & (w' & Hw' & Hstored & Hscheduled & _) & _).
  split; [exact Hreturn|].
  exists w'. split; [exact Hw'|]. split; [reflexivity|].
  split; [exact Hstored | exact Hscheduled].
Defined.

(** C4 as first stated fails: after a successful [SetSource] the element has
    a media source and still the ready state HAVE_NOTHING. *)
Lemma C4_attached_without_data :
  run true [Call_SetSource sample_registry "blob:1"] HTMLVideoElement_new =
  Done tt attached_world /\
  ready_state (this attached_world) = HAVE_NOTHING /\
  media_source_ (this attached_world) = Some "blob:1" /\
  ~ (ready_state (this attached_world) = HAVE_NOTHING <->
     media_source_ (this attached_world) = None).
Proof.
  split; [reflexivity|]. split; [reflexivity|]. split; [reflexivity|].
  intros [H _]. specialize (H eq_refl). discriminate H.
Defined.

(** C4 on a release build that attaches a source, gets metadata and unloads,
    and on the two ways of breaking the precondition in a debug build. *)
Lemma C4_sourceless_has_nothing_witness :
  (preconditions_met false
     [Call_SetSource sample_registry "blob:1";
      Call_OnReadyStateChanged HAVE_METADATA; Call_Load]
     HTMLVideoElement_new /\
   run false
     [Call_SetSource sample_registry "blob:1";
      Call_OnReadyStateChanged HAVE_METADATA; Call_Load]
     HTMLVideoElement_new =
   Done tt
     (world_after [Call_SetSource sample_registry "blob:1";
                   Call_OnReadyStateChanged HAVE_METADATA; Call_Load]) /\
   media_source_
     (this (world_after [Call_SetSource sample_registry "blob:1";
                         Call_OnReadyStateChanged HAVE_METADATA; Call_Load]))
   = None /\
   ready_state
     (this (world_after [Call_SetSource sample_registry "blob:1";
                         Call_OnReadyStateChanged HAVE_METADATA; Call_Load]))
   = HAVE_NOTHING) /\
  (media_source_ (this attached_world) <> None /\
   OnReadyStateChanged true HAVE_NOTHING attached_world = Aborted) /\
  (media_source_ (this (world_after [])) = None /\
   HAVE_METADATA <> HAVE_NOTHING /\
   OnReadyStateChanged true HAVE_METADATA (world_after []) = Aborted).
Proof.
  destruct (C4_sourceless_has_nothing (collab := sample_collaborators))
    as [Hreach Hfatal].
  assert (Hpre : preconditions_met false
                   [Call_SetSource sample_registry "blob:1";
                    Call_OnReadyStateChanged HAVE_METADATA; Call_Load]
                   HTMLVideoElement_new)
    by (cbn; repeat split; discriminate).
  split; [|split].
  - split; [exact Hpre|]. split; [reflexivity|]. split; [reflexivity|].
    apply (Hreach false _ _ (or_intror Hpre)); reflexivity.
  - split; [discriminate|].
    apply Hfatal. left. split; [discriminate | reflexivity].
  - split; [reflexivity|]. split; [discriminate|].
    apply Hfatal. right. split; [reflexivity | discriminate].
Defined.

(** C5 on the empty url, on an url the registry does not know, and on a known
    url after [Play()]. *)
Lemma C5_set_source_witness :
  SetSource true sample_registry EmptyString attached_world =
  Done (Returned tt) (Load_world attached_world) /\
  (("blob:2" <> EmptyString /\ sample_registry "blob:2" = None /\
    sourceless_has_nothing (this attached_world)) /\
   SetSource true sample_registry "blob:2" attached_world =
   Done (Threw (DOMException NotSupportedError
                  "Unknown MediaSource URL given."))
     (Load_world attached_world) /\
   ready_state (this (Load_world attached_world)) = HAVE_NOTHING) /\
  (("blob:1" <> EmptyString /\ sample_registry "blob:1" = Some "blob:1") /\
   SetSource true sample_registry "blob:1" (world_after [Call_Play]) =
   Done (Returned tt)
     (sends [OpenMediaSource "blob:1";
             Controller_SetVolume "blob:1" 1%float;
             PipelineManager_Play "blob:1"]
        (updates (set_media_source_ (Some "blob:1"))
           (Load_world (world_after [Call_Play]))))).
Proof.
  split; [|split].
  - apply (C5_set_source true sample_registry EmptyString attached_world).
    reflexivity.
  - assert (H1 : "blob:2" <> EmptyString) by discriminate.
    assert (H2 : sample_registry "blob:2" = None) by reflexivity.
    assert (H3 : sourceless_has_nothing (this attached_world))
      by (intros H; discriminate H).
    split; [auto|].
    destruct (C5_set_source true sample_registry "blob:2" attached_world)
      as (_ & _ & _ & _ & H & _).
    destruct (H H1 H2) as (Hthrow & _ & _ & Hready).
    split; [exact Hthrow | exact (Hready H3)].
  - assert (H1 : "blob:1" <> EmptyString) by discriminate.
    assert (H2 : sample_registry "blob:1" = Some "blob:1") by reflexivity.
    split; [auto|].
    destruct (C5_set_source true sample_registry "blob:1"
                (world_after [Call_Play])) as (_ & _ & _ & _ & _ & H).
    exact (proj1 (H "blob:1" H1 H2)).
Defined.

(** C6 as first stated fails: an element put on a source whose pipeline has
    reported Errored has scheduled Error once; when the pipeline reports
    Errored again, the call returns the same world and schedules no second
    Error. *)
Lemma C6_repeated_Errored_schedules_nothing :
  run true
    [Call_SetSource sample_registry "blob:1";
     Call_OnPipelineStatusChanged PipelineStatus.Errored]
    HTMLVideoElement_new = Done tt errored_world /\
  scheduled errored_world = [EventType.Error] /\
  OnPipelineStatusChanged true PipelineStatus.Errored errored_world =
  Done tt errored_world /\
  ~ (exists w',
       OnPipelineStatusChanged true PipelineStatus.Errored errored_world =
       Done tt w' /\
       scheduled w' = scheduled errored_world ++ [EventType.Error]).
Proof.
  split; [vm_compute; reflexivity|].
  split; [vm_compute; reflexivity|].
  split; [vm_compute; reflexivity|].
  intros (w' & Hreturn & Hscheduled).
  vm_compute in Hreturn. injection Hreturn as <-.
  vm_compute in Hscheduled. discriminate Hscheduled.
Defined.

(** C6 on a fresh element and on one that has recorded a media error. *)
Lemma C6_first_error_wins_witness :
  (pipeline_status_ (this (world_after [])) <> PipelineStatus.Errored /\
   OnPipelineStatusChanged true PipelineStatus.Errored (world_after []) =
   Done tt (world_in PipelineStatus.Errored) /\
   error (this (world_in PipelineStatus.Errored)) =
   Some generic_decode_error) /\
  (error (this failed_world) =
   Some (mkMediaError MEDIA_ERR_DECODE "Decoder failure") /\
   exists w',
     run true (map report_op [Report_Errored; Report_OnMediaError tt 9%Z])
       failed_world = Done tt w' /\
     error (this w') =
     Some (mkMediaError MEDIA_ERR_DECODE "Decoder failure")) /\
  (error (this (world_after [])) = None /\
   exists w',
     run true
       (map report_op
          [Report_Errored; Report_OnMediaError tt 9%Z; Report_Errored])
       (world_after []) = Done tt w' /\
     error (this w') = Some generic_decode_error) /\
  (pipeline_status_ (this errored_world) = PipelineStatus.Errored /\
   OnPipelineStatusChanged true PipelineStatus.Errored errored_world =
   Done tt errored_world) /\
  (pipeline_status_ (this failed_world) <> PipelineStatus.Errored /\
   exists w',
     OnPipelineStatusChanged true PipelineStatus.Errored failed_world =
     Done tt w' /\
     scheduled w' = scheduled failed_world ++ [EventType.Error] /\
     error (this w') =
     Some (mkMediaError MEDIA_ERR_DECODE "Decoder failure") /\
     pipeline_status_ (this w') = PipelineStatus.Errored).
Proof.
  destruct (C6_first_error_wins true (world_after []))
    as (_ & Htransition & _ & Hfirst & _).
  destruct (C6_first_error_wins true failed_world)
    as (_ & _ & Hkept & _ & _ & _ & _ & Hcommitted).
  destruct (C6_first_error_wins true errored_world)
    as (_ & _ & _ & _ & _ & Hrepeated & _).
  split; [|split; [|split; [|split]]]; cycle 3.
  { assert (H : pipeline_status_ (this errored_world) =
                PipelineStatus.Errored) by (vm_compute; reflexivity).
    split; [exact H | exact (Hrepeated H)]. }
  { assert (H : pipeline_status_ (this failed_world) <>
                PipelineStatus.Errored) by discriminate.
    split; [exact H|].
    destruct (Hcommitted H) as (w' & Hw' & Hscheduled & Herror & Hstatus).
    exists w'. split; [exact Hw'|]. split; [exact Hscheduled|].
    split; [exact Herror | exact Hstatus]. }
  - assert (H : pipeline_status_ (this (world_after [])) <>
                PipelineStatus.Errored) by discriminate.
    split; [exact H|]. split; [exact (Htransition H) | reflexivity].
  - split; [reflexivity|].
    apply Hkept. reflexivity.
  - split; [reflexivity|].
    apply (Hfirst Report_Errored); [reflexivity|].
    intros _. discriminate.
Defined.

(** C7 as first stated fails: [SetSource] is not [Load], and clears a
    recorded error as well. *)
Lemma C7_SetSource_clears_error :
  error (this failed_world) =
  Some (mkMediaError MEDIA_ERR_DECODE "Decoder failure") /\
  step true (Call_SetSource sample_registry EmptyString) failed_world =
  Done tt
    (world_after [Call_OnMediaError tt 7%Z;
                  Call_SetSource sample_registry EmptyString]) /\
  error
    (this (world_after [Call_OnMediaError tt 7%Z;
                        Call_SetSource sample_registry EmptyString])) =
  None /\
  Call_SetSource sample_registry EmptyString <> Call_Load.
Proof.
  split; [reflexivity|]. split; [reflexivity|]. split; [reflexivity|].
  discriminate.
Defined.

(** C7 on an element that has recorded a media error. *)
Lemma C7_load_clears_error_witness :
  (performs_Load (Call_OnPipelineStatusChanged PipelineStatus.Errored) =
   false /\
   error (this failed_world) =
   Some (mkMediaError MEDIA_ERR_DECODE "Decoder failure") /\
   error
     (this (world_after [Call_OnMediaError tt 7%Z;
                         Call_OnPipelineStatusChanged
                           PipelineStatus.Errored])) =
   Some (mkMediaError MEDIA_ERR_DECODE "Decoder failure")) /\
  (media_source_ (this failed_world) = None /\
   Load true failed_world = Done tt (updates (set_error None) failed_world)).
Proof.
  destruct (C7_load_clears_error true failed_world)
    as (_ & Hkept & _ & Hnone & _).
  split.
  - split; [reflexivity|]. split; [reflexivity|].
    apply (Hkept (Call_OnPipelineStatusChanged PipelineStatus.Errored));
      reflexivity.
  - split; [reflexivity|]. apply Hnone. reflexivity.
Defined.


(** C9 as first stated fails: [SetVolume(2.0)] on a fresh element stores
    2.0, which is out of range. *)
Lemma C9_SetVolume_out_of_range :
  run true [Call_SetVolume 2%float] HTMLVideoElement_new =
  Done tt (world_after [Call_SetVolume 2%float]) /\
  volume_ (this (world_after [Call_SetVolume 2%float])) = 2%float /\
  volume_in_range (volume_ (this (world_after [Call_SetVolume 2%float]))) =
  false.
Proof.
  split; [reflexivity|]. split; reflexivity.
Defined.

(** C9 on a sequence that sets the volume to 0.5. *)
Lemma C9_volume_in_range_witness :
  Forall (fun op => is_SetVolume_out_of_range op = false)
    [Call_Play; Call_SetVolume 0.5%float;
     Call_SetSource sample_registry "blob:1"; Call_SetMuted true] /\
  volume_in_range
    (volume_
       (this (world_after
                [Call_Play; Call_SetVolume 0.5%float;
                 Call_SetSource sample_registry "blob:1";
                 Call_SetMuted true]))) = true.
Proof.
  assert (H : Forall (fun op => is_SetVolume_out_of_range op = false)
                [Call_Play; Call_SetVolume 0.5%float;
                 Call_SetSource sample_registry "blob:1";
                 Call_SetMuted true])
    by (repeat constructor).
  split; [exact H|].
  destruct (C9_volume_in_range (collab := sample_collaborators) true)
    as (_ & _ & _ & Hrange).
  apply (Hrange _ _ H). reflexivity.
Defined.

(** C10 on a transition from Stalled to Playing and on one from Ended to
    Paused. *)
Lemma C10_asserted_transitions_witness :
  (In (pipeline_status_ (this (world_in PipelineStatus.Stalled)))
     [PipelineStatus.Paused; PipelineStatus.SeekingPlay;
      PipelineStatus.Stalled; PipelineStatus.Initializing] /\
   exists w',
     OnPipelineStatusChanged true PipelineStatus.Playing
       (world_in PipelineStatus.Stalled) = Done tt w') /\
  (In (pipeline_status_ (this (world_in PipelineStatus.Ended)))
     [PipelineStatus.SeekingPlay; PipelineStatus.Ended;
      PipelineStatus.Errored] /\
   OnPipelineStatusChanged true PipelineStatus.Paused
     (world_in PipelineStatus.Ended) = Aborted /\
   OnPipelineStatusChanged false PipelineStatus.Paused
     (world_in PipelineStatus.Ended) =
   Done tt (updates (set_pipeline_status_ PipelineStatus.Paused)
              (world_in PipelineStatus.Ended))).
Proof.
  split.
  - assert (H : In (pipeline_status_ (this (world_in PipelineStatus.Stalled)))
                  [PipelineStatus.Paused; PipelineStatus.SeekingPlay;
                   PipelineStatus.Stalled; PipelineStatus.Initializing])
      by (cbn; tauto).
    split; [exact H|].
    exact (proj1 (C10_asserted_transitions
                    (world_in PipelineStatus.Stalled)) H true).
  - assert (H : In (pipeline_status_ (this (world_in PipelineStatus.Ended)))
                  [PipelineStatus.SeekingPlay; PipelineStatus.Ended;
                   PipelineStatus.Errored])
      by (cbn; tauto).
    split; [exact H|].
    exact (proj2 (proj2 (proj2 (C10_asserted_transitions
                                  (world_in PipelineStatus.Ended)))) H).
Defined.

(* ------------------------------------------------------------------ *)
(** ** The further properties on sample elements *)

#[local] Existing Instance sample_readings.

(** X1 on a fresh element and on one with a media source. *)
Lemma SetMediaKeys_outcomes_witness :
  (media_source_ (this (world_after [])) = None /\
   Some tt <> None /\
   SetMediaKeys (Some tt) (world_after []) =
   Done (Rejected
           (DOMException InvalidStateError
              "Cannot set MediaKeys until after setting source"))
     (world_after [])) /\
  (media_source_ (this attached_world) = Some "blob:1" /\
   media_keys (this attached_world) = None /\
   exists w',
     SetMediaKeys (Some tt) attached_world = Done Resolved w' /\
     media_keys (this w') = Some tt /\
     calls w' =
     calls attached_world ++ [Controller_SetCdm "blob:1" (Some tt)]).
Proof.
  split.
  - assert (H1 : media_source_ (this (world_after [])) = None)
      by reflexivity.
    assert (H2 : Some tt <> @None unit) by discriminate.
    split; [exact H1|]. split; [exact H2|].
    exact (proj1 (proj2 (SetMediaKeys_outcomes (Some tt) (world_after [])))
             H1 H2).
  - split; [reflexivity|]. split; [reflexivity|].
    destruct (proj2 (proj2 (@SetMediaKeys_outcomes sample_collaborators
                              (Some tt) attached_world))
                "blob:1" eq_refl)
      as (_ & w' & Hw' & Hkeys & Hcalls & _).
    exists w'. split; [exact Hw'|]. split; [exact Hkeys | exact Hcalls].
Defined.

(** X2 on a playing element whose pipeline reports Ended. *)
Lemma status_events_agree_with_getters_witness :
  OnPipelineStatusChanged true PipelineStatus.Ended
    (world_in PipelineStatus.Playing) =
  Done tt
    (world_after [Call_OnPipelineStatusChanged PipelineStatus.Playing;
                  Call_OnPipelineStatusChanged PipelineStatus.Ended]) /\
  Paused
    (world_after [Call_OnPipelineStatusChanged PipelineStatus.Playing;
                  Call_OnPipelineStatusChanged PipelineStatus.Ended]) =
  Done true
    (world_after [Call_OnPipelineStatusChanged PipelineStatus.Playing;
                  Call_OnPipelineStatusChanged PipelineStatus.Ended]).
Proof.
  assert (H : OnPipelineStatusChanged true PipelineStatus.Ended
                (world_in PipelineStatus.Playing) =
              Done tt
                (world_after
                   [Call_OnPipelineStatusChanged PipelineStatus.Playing;
                    Call_OnPipelineStatusChanged PipelineStatus.Ended]))
    by reflexivity.
  split; [exact H|].
  destruct (status_events_agree_with_getters _ _ _ H)
    as (evs & Hevs & Hpause & _).
  apply Hpause.
  change ([EventType.Playing] ++ [EventType.Pause; EventType.Ended] =
          [EventType.Playing] ++ evs) in Hevs.
  apply app_inv_head in Hevs. subst evs. left. reflexivity.
Defined.

(** X3 on an element with a media source that gets metadata. *)
Lemma ready_state_report_is_idempotent_witness :
  OnReadyStateChanged true HAVE_METADATA attached_world =
  Done tt
    (world_after [Call_SetSource sample_registry "blob:1";
                  Call_OnReadyStateChanged HAVE_METADATA]) /\
  OnReadyStateChanged true HAVE_METADATA
    (world_after [Call_SetSource sample_registry "blob:1";
                  Call_OnReadyStateChanged HAVE_METADATA]) =
  Done tt
    (world_after [Call_SetSource sample_registry "blob:1";
                  Call_OnReadyStateChanged HAVE_METADATA]).
Proof.
  assert (H : OnReadyStateChanged true HAVE_METADATA attached_world =
              Done tt
                (world_after [Call_SetSource sample_registry "blob:1";
                              Call_OnReadyStateChanged HAVE_METADATA]))
    by reflexivity.
  split; [exact H|].
  exact (proj1 (ready_state_report_is_idempotent _ _ _ H)).
Defined.

(** X4 on an element with enough data that falls back to current data. *)
Lemma ready_state_events_follow_the_direction_witness :
  OnReadyStateChanged true HAVE_CURRENT_DATA
    (world_after [Call_SetSource sample_registry "blob:1";
                  Call_OnReadyStateChanged HAVE_ENOUGH_DATA]) =
  Done tt
    (world_after [Call_SetSource sample_registry "blob:1";
                  Call_OnReadyStateChanged HAVE_ENOUGH_DATA;
                  Call_OnReadyStateChanged HAVE_CURRENT_DATA]) /\
  exists evs,
    scheduled
      (world_after [Call_SetSource sample_registry "blob:1";
                    Call_OnReadyStateChanged HAVE_ENOUGH_DATA;
                    Call_OnReadyStateChanged HAVE_CURRENT_DATA]) =
    scheduled
      (world_after [Call_SetSource sample_registry "blob:1";
                    Call_OnReadyStateChanged HAVE_ENOUGH_DATA]) ++ evs /\
    List.length evs <= 4.
Proof.
  assert (H : OnReadyStateChanged true HAVE_CURRENT_DATA
                (world_after [Call_SetSource sample_registry "blob:1";
                              Call_OnReadyStateChanged HAVE_ENOUGH_DATA]) =
              Done tt
                (world_after
                   [Call_SetSource sample_registry "blob:1";
                    Call_OnReadyStateChanged HAVE_ENOUGH_DATA;
                    Call_OnReadyStateChanged HAVE_CURRENT_DATA]))
    by reflexivity.
  split; [exact H|].
  destruct (ready_state_events_follow_the_direction _ _ _ H)
    as (evs & Hevs & Hlength & _).
  exists evs. split; [exact Hevs | exact Hlength].
Defined.

(** X5 on an element with a media source that gets metadata and then
    enough data, or enough data at once. *)
Lemma threshold_events_do_not_depend_on_the_path_witness :
  this
    (world_after [Call_SetSource sample_registry "blob:1";
                  Call_OnReadyStateChanged HAVE_METADATA;
                  Call_OnReadyStateChanged HAVE_ENOUGH_DATA]) =
  this
    (world_after [Call_SetSource sample_registry "blob:1";
                  Call_OnReadyStateChanged HAVE_ENOUGH_DATA]).
Proof.
  refine (proj1
            (@threshold_events_do_not_depend_on_the_path
               sample_collaborators true HAVE_METADATA HAVE_ENOUGH_DATA
               attached_world
               (world_after [Call_SetSource sample_registry "blob:1";
                             Call_OnReadyStateChanged HAVE_METADATA])
               _ _ _ eq_refl eq_refl eq_refl)).
  left. cbn. lia.
Defined.

(** X6 on an element that is muted and then given a volume. *)
Lemma controller_volume_follows_element_witness :
  last_volume_call
    (calls
       (world_after [Call_SetSource sample_registry "blob:1";
                     Call_SetMuted true; Call_SetVolume 0.5%float;
                     Call_Play])) =
  Some ("blob:1", 0%float).
Proof.
  exact (@controller_volume_follows_element sample_collaborators true
           [Call_SetSource sample_registry "blob:1";
            Call_SetMuted true; Call_SetVolume 0.5%float; Call_Play]
           _ "blob:1" eq_refl eq_refl).
Defined.

(** X7 on a fresh element told to play, and then put on a source. *)
Lemma sourceless_element_makes_no_call_witness :
  media_source_ (this (world_after [])) = None /\
  calls (world_after [Call_Play]) = calls (world_after []) /\
  calls (world_after [Call_SetSource sample_registry "blob:2"]) =
  calls (world_after []).
Proof.
  assert (Hnone : media_source_ (this (world_after [])) = None)
    by reflexivity.
  destruct (@sourceless_element_makes_no_call sample_collaborators
              (world_after []) Hnone) as (Hstep & _).
  split; [exact Hnone|]. split.
  - apply (Hstep true Call_Play (world_after [Call_Play])).
    + intros find src H. discriminate H.
    + vm_compute. reflexivity.
  - apply (Hstep true (Call_SetSource sample_registry "blob:2")
             (world_after [Call_SetSource sample_registry "blob:2"])).
    + intros find src H. injection H as <- <-. right.
      vm_compute. reflexivity.
    + vm_compute. reflexivity.
Defined.

(** X8 on a fresh element. *)
Lemma will_play_latch_is_honoured_once_witness :
  exists w',
    bind Play
      (fun _ => bind (SetSource true sample_registry "blob:1")
                  (fun _ => SetSource true sample_registry "blob:1"))
      (world_after []) = Done (Returned tt) w' /\
    count_play (calls w') = 1.
Proof.
  destruct (@will_play_latch_is_honoured_once sample_collaborators true
              sample_registry sample_registry "blob:1" "blob:1"
              "blob:1" "blob:1" (world_after []))
    as (w' & Hrun & _ & Hcount & _);
    try reflexivity; try discriminate.
  exists w'. split; [exact Hrun | exact Hcount].
Defined.

(** X9 on a fresh element that gets a media error. *)
Lemma error_event_goes_with_error_record_witness :
  step true report_failure (world_after []) =
  Done tt failed_world /\
  exists evs,
    scheduled failed_world = scheduled (world_after []) ++ evs /\
    (In EventType.Error evs -> error (this failed_world) <> None).
Proof.
  assert (H : step true report_failure (world_after []) =
              Done tt failed_world) by reflexivity.
  split; [exact H|].
  destruct (error_event_goes_with_error_record _ _ _ H)
    as (evs & Hevs & Hrecorded & _).
  exists evs. split; [exact Hevs | exact Hrecorded].
Defined.

(** X11 on a fresh element given two tracks around a [Load()]. *)
Lemma text_tracks_only_grow_witness :
  exists added,
    text_tracks
      (this (world_after [add_track (Some "en"); Call_Load;
                          add_track None])) =
    text_tracks (this (world_after [])) ++ added /\
    List.length added = 2.
Proof.
  destruct (@text_tracks_only_grow sample_collaborators true
              [add_track (Some "en"); Call_Load;
               add_track None]
              (world_after []) _ eq_refl)
    as (added & Htracks & Hlength & _).
  exists added. split; [exact Htracks | exact Hlength].
Defined.

(** X12 on a loop that sees a paused element twice and then a playing
    one. *)
Lemma cue_checks_resume_where_they_stopped_witness :
  ThreadMain 0%float
    ([(1%float, this (world_in PipelineStatus.Paused));
      (2%float, this (world_in PipelineStatus.Paused))] ++
     (3%float,
      this (world_after [add_track None;
                         Call_OnPipelineStatusChanged
                           PipelineStatus.Playing])) :: []) =
  ([mkCueCheck unnamed_track 3%float 0%float],
   3%float).
Proof.
  refine (proj2
            (@cue_checks_resume_where_they_stopped sample_collaborators
               0%float 3%float
               (this (world_after [add_track None;
                                   Call_OnPipelineStatusChanged
                                     PipelineStatus.Playing]))
               [(1%float, this (world_in PipelineStatus.Paused));
                (2%float, this (world_in PipelineStatus.Paused))]
               [] _) eq_refl).
  repeat constructor; cbn; discriminate.
Defined.

(** X13 on an element whose source fails and is unloaded. *)
Lemma element_follows_the_pipeline_witness :
  callbacks_while_attached true failing_session HTMLVideoElement_new /\
  run true failing_session HTMLVideoElement_new =
  Done tt (world_after failing_session) /\
  media_source_ (this (world_after failing_session)) = None /\
  pipeline_status_ (this (world_after failing_session)) =
  PipelineStatus.Initializing.
Proof.
  assert (H : callbacks_while_attached true failing_session
                HTMLVideoElement_new)
    by (cbn; repeat split; intros; discriminate).
  assert (Hrun : run true failing_session HTMLVideoElement_new =
                 Done tt (world_after failing_session))
    by (vm_compute; reflexivity).
  assert (Hms : media_source_ (this (world_after failing_session)) = None)
    by (vm_compute; reflexivity).
  split; [exact H|]. split; [exact Hrun|]. split; [exact Hms|].
  exact (proj1 (proj1 (@element_follows_the_pipeline sample_collaborators
                         true failing_session
                         (world_after failing_session) H Hrun) Hms)).
Defined.

(** X14 on an element with a media source that is unloaded. *)
Lemma getters_after_unloading_witness :
  Load true attached_world = Done tt (Load_world attached_world) /\
  CurrentTime (Load_world attached_world) =
  Done 0%float (Load_world attached_world) /\
  CurrentTime attached_world = Done 12.5%float attached_world.
Proof.
  assert (H : Load true attached_world = Done tt (Load_world attached_world))
    by reflexivity.
  split; [exact H|]. split; [|reflexivity].
  destruct (@getters_after_unloading sample_collaborators sample_readings
              true sample_registry EmptyString attached_world
              (Load_world attached_world) (or_introl H))
    as (_ & _ & Htime & _).
  exact Htime.
Defined.

(** X15 on an element with a media source of 60 s. *)
Lemma Seekable_ranges_witness :
  exists ranges,
    Seekable attached_world = Done ranges attached_world /\
    List.length ranges <= 1.
Proof.
  destruct (@Seekable_ranges sample_collaborators sample_readings
              attached_world) as (ranges & Hranges & Hlength & _).
  exists ranges. split; [exact Hranges | exact Hlength].
Defined.

(** X17 on the documents at 1 and 2. *)
Lemma global_document_lifecycle_witness :
  1 <> 2 /\
  Document.CreateGlobalDocument true 2 (Some 1) = None /\
  Document.destroy 1 (Some 2) = Some 2.
Proof.
  assert (H : 1 <> 2) by discriminate.
  split; [exact H|].
  destruct (global_document_lifecycle H) as (_ & Habort & _ & _ & Hkept & _).
  split; [exact Habort | exact Hkept].
Defined.
